(** * scripts/generate_embeddings.py: a shallow embedding and its properties

    The script loads its configuration, selects the notes whose embedding
    is NULL, asks an external provider for an embedding of each note and
    writes it back, committing note by note.

    The two external services (PostgreSQL through psycopg2, the embedding
    API through the openai client) and the standard output are not part
    of the script.  They are modelled by a [world]: the content of the
    table when the connection opens, and oracles that say which call to
    the outside raises.  The script itself is written in a small
    state-and-exception monad [Py.M] whose state holds the session of
    the database server and the trace of the calls made so far. *)

From Stdlib Require Import ZArith NArith Lia.
From Stdlib Require Import Floats.SpecFloat.
From stdpp Require Import base option list strings gmap.

Open Scope Z_scope.

(** ** Python text *)

Module PyStr.

(** A Python [str] is a sequence of Unicode code points. *)
Definition char : Type := N.
Definition str : Type := list char.

Definition newline : char := 10%N.
Definition space : char := 32%N.

(** A literal whose characters are all ASCII. *)
Fixpoint lit (s : string) : str :=
  match s with
  | EmptyString => []
  | String c s' => Ascii.N_of_ascii c :: lit s'
  end.

(** [len(s)] *)
Definition len (s : str) : Z := Z.of_nat (length s).

(** [s.replace(old, new)] where [old] and [new] are one character long:
    every occurrence of [old] is replaced. *)
Definition replace (old new : char) (s : str) : str :=
  (λ c, if decide (c = old) then new else c) <$> s.

(** [s[:stop]], Python's slice with only an upper bound: a negative bound
    counts from the end, and a bound beyond the end is clipped. *)
Definition slice_to (stop : Z) (s : str) : str :=
  if decide (0 ≤ stop) then take (Z.to_nat stop) s
  else take (Z.to_nat (len s + stop)) s.

(** [str(v)] for a value read from a text column: SQL NULL arrives as
    [None], whose [str] is the four characters of its name.  This is what
    a replacement field [{v}] of an f-string inserts. *)
Definition to_str (v : option str) : str :=
  match v with
  | None => lit "None"
  | Some s => s
  end.

(** [s.endswith(t)] and [t in s], as propositions. *)
Definition ends_with (s t : str) : Prop := t `suffix_of` s.
Definition contains (s t : str) : Prop := ∃ a b, s = a ++ t ++ b.

End PyStr.

Import PyStr.

(** ** The notes table *)

Module Sql.

(** An embedding is a list of floating-point numbers; the script never
    computes on its components. *)
Definition vector : Type := list spec_float.

(** A row of the table [notes].  A column that holds SQL NULL reads as
    [None]; a timestamp is a number of time units. *)
Record note : Type := Note {
  note_id : Z;
  title : option str;
  content : option str;
  embedding : option vector;
  indexed_at : option Z
}.

Abbreviation table := (list note).

(** What the SELECT returns for one row: [(id, title, content)]. *)
Abbreviation candidate := (Z * option str * option str)%type.

Definition columns (r : note) : candidate := (note_id r, title r, content r).

(** [SELECT id, title, content FROM notes WHERE embedding IS NULL] *)
Definition select_unembedded (t : table) : list candidate :=
  columns <$> filter (λ r, embedding r = None) t.

Definition set_embedding (v : vector) (now : Z) (r : note) : note :=
  {| note_id := note_id r; title := title r; content := content r;
     embedding := Some v; indexed_at := Some now |}.

(** [UPDATE notes SET embedding = v, indexed_at = NOW() WHERE id = i] *)
Definition update_embedding (v : vector) (now : Z) (i : Z) (t : table) : table :=
  (λ r, if decide (note_id r = i) then set_embedding v now r else r) <$> t.

(** The identifier is the key of the table. *)
Definition unique_ids (t : table) : Prop := NoDup (note_id <$> t).

End Sql.

Import Sql.

(** ** The interpreter state, the external world and the monad *)

Module Py.

(** An exception, that is an instance of [Exception]: its class and its
    message. *)
Record exn : Type := Exn { exn_class : string; exn_msg : string }.

(** The lines the script prints, kept as their format and arguments:
    [Found {n} notes to process.], [Processed note {id}: {title}],
    [Error processing note {id}: {e}] and [Finished processing notes.] *)
Inductive message : Type :=
| MsgFound (n : nat)
| MsgProcessed (id : Z) (title : option str)
| MsgError (id : Z) (e : exn)
| MsgFinished.

(** The calls the script makes to the outside, in the order it makes
    them. *)
Inductive event : Type :=
| EvOpenAI (api_key : string)
| EvConnect (dsn : option string)
| EvCursor
| EvSelect
| EvFetchall
| EvEmbeddingsCreate (input : list str) (model : string)
| EvUpdate (v : vector) (id : Z)
| EvCommit
| EvRollback
| EvPrint (m : message)
| EvCursorClose
| EvConnClose.

(** What the script cannot decide.  Every call to the outside can raise,
    and whether it does may depend on everything that happened before,
    so an oracle receives the trace so far.  The connection attempt, the
    embedding request, the UPDATE and the commit have an oracle of their
    own; [call_error] decides for the other calls: creating the cursor,
    the SELECT, [fetchall], [rollback], the two [close] calls and every
    [print].  Only the construction of the client, which sends nothing,
    is taken to return.

    [connect_error] receives what [DATABASE_URL] holds, which may be
    nothing: the driver then falls back on the defaults of its library,
    and the world decides whether that connects. *)
Record world : Type := World {
  process_env : gmap string string;
  env_file : list (string * string);
  connect_error : option string → option exn;
  notes_table : table;
  embeddings_create : list event → list str → string → exn + vector;
  update_error : list event → vector → Z → option exn;
  commit_error : list event → option exn;
  call_error : list event → event → option exn;
  server_now : list event → Z
}.

(** The trace of calls, the table as committed on the server, the table
    as the open transaction of the connection sees it, and the result
    set of the cursor. *)
Record state : Type := State {
  trace : list event;
  committed : table;
  pending : table;
  rows : list candidate
}.

Inductive result (A : Type) : Type :=
| Ok (a : A)
| Raise (e : exn).
Arguments Ok {A} a.
Arguments Raise {A} e.

Definition M (A : Type) : Type := state → state * result A.

Definition ret {A} (a : A) : M A := λ st, (st, Ok a).

Definition bind {A B} (m : M A) (k : A → M B) : M B :=
  λ st, match m st with
        | (st', Ok a) => k a st'
        | (st', Raise e) => (st', Raise e)
        end.

Definition raise {A} (e : exn) : M A := λ st, (st, Raise e).

(** [try: m except Exception as e: h e] *)
Definition try_except {A} (m : M A) (h : exn → M A) : M A :=
  λ st, match m st with
        | (st', Ok a) => (st', Ok a)
        | (st', Raise e) => h e st'
        end.

(** [for x in l: f x] *)
Fixpoint for_each {A} (f : A → M unit) (l : list A) : M unit :=
  match l with
  | [] => ret tt
  | x :: l' => bind (f x) (λ _, for_each f l')
  end.

Definition log (ev : event) (st : state) : state :=
  {| trace := trace st ++ [ev]; committed := committed st;
     pending := pending st; rows := rows st |}.

Definition emit (ev : event) : M unit := λ st, (log ev st, Ok tt).

Definition gets {A} (f : state → A) : M A := λ st, (st, Ok (f st)).

Definition modify (f : state → state) : M unit := λ st, (f st, Ok tt).

End Py.

Import Py.

#[global] Instance M_ret : MRet M := @ret.
#[global] Instance M_bind : MBind M := λ A B k m, bind m k.

(** ** The libraries the script calls *)

Module Lib.

(** A call to the outside that returns nothing: it is recorded, and the
    world says whether it raises. *)
Definition call (w : world) (ev : event) : M unit :=
  λ st, let st' := log ev st in
        match call_error w (trace st) ev with
        | Some e => (st', Raise e)
        | None => (st', Ok tt)
        end.

(** [print(...)] *)
Definition print (w : world) (m : message) : M unit := call w (EvPrint m).

(** [OpenAI(api_key=key)]: builds the client, no request is sent. *)
Definition OpenAI (key : string) : M unit := emit (EvOpenAI key).

(** [psycopg2.connect(dsn)] *)
Definition connect (w : world) (dsn : option string) : M unit :=
  emit (EvConnect dsn);;
  match connect_error w dsn with
  | Some e => raise e
  | None => mret tt
  end.

(** [conn.cursor()] *)
Definition cursor (w : world) : M unit := call w EvCursor.

(** [cur.execute("SELECT id, title, content FROM notes WHERE embedding IS
    NULL")]: the transaction of the connection evaluates the query and
    the cursor keeps the rows. *)
Definition execute_select (w : world) : M unit :=
  call w EvSelect;;
  modify (λ st, {| trace := trace st; committed := committed st;
                   pending := pending st;
                   rows := select_unembedded (pending st) |}).

(** [cur.fetchall()] *)
Definition fetchall (w : world) : M (list candidate) :=
  call w EvFetchall;;
  gets rows.

(** [client.embeddings.create(input=input, model=model).data[0].embedding] *)
Definition embeddings_create_call (w : world) (input : list str)
    (model : string) : M vector :=
  λ st, let st' := log (EvEmbeddingsCreate input model) st in
        match embeddings_create w (trace st) input model with
        | inl e => (st', Raise e)
        | inr v => (st', Ok v)
        end.

(** [cur.execute("UPDATE notes SET embedding = %s, indexed_at = NOW() WHERE
    id = %s", (v, i))]: a statement that raises changes nothing. *)
Definition execute_update (w : world) (v : vector) (i : Z) : M unit :=
  λ st, let st' := log (EvUpdate v i) st in
        match update_error w (trace st) v i with
        | Some e => (st', Raise e)
        | None =>
            ({| trace := trace st'; committed := committed st';
                pending := update_embedding v (server_now w (trace st)) i
                             (pending st');
                rows := rows st' |}, Ok tt)
        end.

(** [conn.commit()]: what the transaction did becomes the committed
    table; a commit that raises commits nothing. *)
Definition commit (w : world) : M unit :=
  λ st, let st' := log EvCommit st in
        match commit_error w (trace st) with
        | Some e => (st', Raise e)
        | None =>
            ({| trace := trace st'; committed := pending st';
                pending := pending st'; rows := rows st' |}, Ok tt)
        end.

(** [conn.rollback()]: the transaction is discarded; a rollback that
    raises discards nothing. *)
Definition rollback (w : world) : M unit :=
  call w EvRollback;;
  modify (λ st, {| trace := trace st; committed := committed st;
                   pending := committed st; rows := rows st |}).

(** [cur.close()] and [conn.close()] *)
Definition cursor_close (w : world) : M unit := call w EvCursorClose.
Definition conn_close (w : world) : M unit := call w EvConnClose.

(** Modelled from the spec: [load_dotenv] belongs to the python-dotenv
    package, which is not among the sources.  The file is consulted only
    to populate variables not already present in the process environment;
    [file] holds the bindings read from [.env.local], in file order (no
    binding when the file does not exist). *)
Definition load_dotenv (file : list (string * string))
    (environ : gmap string string) : gmap string string :=
  foldl (λ env kv, match env !! kv.1 with
                   | Some _ => env
                   | None => <[kv.1 := kv.2]> env
                   end) environ file.

(** Truth value of what [os.environ.get] returns: [None] and the empty
    string are false. *)
Definition truthy (v : option string) : bool :=
  match v with
  | Some (String _ _) => true
  | _ => false
  end.

End Lib.

Import Lib.

(** ** The script *)

Module Script.

Definition default_model : string := "text-embedding-3-small".

(** [get_embedding(text, model)] *)
Definition get_embedding (w : world) (text : str) (model : string) : M vector :=
  let text := replace newline space text in
  embeddings_create_call w [text] model.

(** [f"{title}\n\n{content}"] *)
Definition full_text (title content : option str) : str :=
  to_str title ++ [newline; newline] ++ to_str content.

(** [full_text[:8000]] *)
Definition truncated_text (title content : option str) : str :=
  slice_to 8000 (full_text title content).

(** What the provider receives for a note. *)
Definition provider_input (title content : option str) : str :=
  replace newline space (truncated_text title content).

(** The body of the [try] for one note. *)
Definition try_body (w : world) (n : candidate) : M unit :=
  let '(note_id, title, content) := n in
  embedding ← get_embedding w (truncated_text title content) default_model;
  execute_update w embedding note_id;;
  commit w;;
  print w (MsgProcessed note_id title).

(** The body of [except Exception as e]. *)
Definition handler (w : world) (n : candidate) (e : exn) : M unit :=
  let '(note_id, _, _) := n in
  print w (MsgError note_id e);;
  rollback w.

(** One turn of the loop.  An exception raised in the handler leaves the
    turn. *)
Definition process_note (w : world) (n : candidate) : M unit :=
  try_except (try_body w n) (handler w n).

(** [process_notes()], with the global [DATABASE_URL] as an argument. *)
Definition process_notes (w : world) (DATABASE_URL : option string) : M unit :=
  connect w DATABASE_URL;;
  cursor w;;
  execute_select w;;
  notes ← fetchall w;
  print w (MsgFound (length notes));;
  for_each (process_note w) notes;;
  cursor_close w;;
  conn_close w;;
  print w MsgFinished.

(** [os.environ] once [load_dotenv(".env.local")] has run. *)
Definition environ (w : world) : gmap string string :=
  load_dotenv (env_file w) (process_env w).

(** The module, run as a script. *)
Definition script (w : world) : M unit :=
  let DATABASE_URL := environ w !! "DATABASE_URL" in
  let OPENAI_API_KEY := environ w !! "OPENAI_API_KEY" in
  if negb (truthy OPENAI_API_KEY) then
    raise (Exn "ValueError" "OPENAI_API_KEY environment variable is required")
  else
    OpenAI (default "" OPENAI_API_KEY);;
    process_notes w DATABASE_URL.

(** Nothing has been called yet and no transaction is open. *)
Definition initial (w : world) : state :=
  {| trace := []; committed := notes_table w; pending := notes_table w;
     rows := [] |}.

Definition run (w : world) : state * result unit := script w (initial w).

(** The exit status of the interpreter: 1 after an uncaught exception. *)
Definition exit_status (r : result unit) : Z :=
  match r with
  | Ok _ => 0
  | Raise _ => 1
  end.

End Script.

Import Script.

(** ** One turn of the loop, case by case

    The ways the [try] body and the handler can go, as relations between
    the state before and the state after.  [process_note_turn] below
    shows that [process_note] always takes one of them. *)

Module Turn.

Definition request (title content : option str) : event :=
  EvEmbeddingsCreate [provider_input title content] default_model.

(** [st'] is [st] with the calls [evs] added to the trace and the two
    tables replaced. *)
Definition after (st st' : state) (evs : list event) (c p : table) : Prop :=
  trace st' = trace st ++ evs ∧ committed st' = c ∧ pending st' = p ∧
  rows st' = rows st.

(** The first three calls of the [try] body: the embedding computation
    and the persistence, without the message that follows them. *)
Definition persist (w : world) (n : candidate) : M unit :=
  let '(note_id, title, content) := n in
  embedding ← get_embedding w (truncated_text title content) default_model;
  execute_update w embedding note_id;;
  commit w.

(** The table once the UPDATE of a turn that starts in [st] is done. *)
Definition updated (w : world) (id : Z) (title content : option str)
    (v : vector) (st : state) : table :=
  update_embedding v (server_now w (trace st ++ [request title content])) id
    (pending st).

(** The [try] body: [st1] and [r] are the state and the result it ends
    with. *)
Inductive tried (w : world) (id : Z) (title content : option str)
    (st st1 : state) : result unit → Prop :=
| tried_request_raises e :
    embeddings_create w (trace st) [provider_input title content]
      default_model = inl e →
    after st st1 [request title content] (committed st) (pending st) →
    tried w id title content st st1 (Raise e)
| tried_update_raises v e :
    embeddings_create w (trace st) [provider_input title content]
      default_model = inr v →
    update_error w (trace st ++ [request title content]) v id = Some e →
    after st st1 [request title content; EvUpdate v id]
      (committed st) (pending st) →
    tried w id title content st st1 (Raise e)
| tried_commit_raises v e :
    embeddings_create w (trace st) [provider_input title content]
      default_model = inr v →
    update_error w (trace st ++ [request title content]) v id = None →
    commit_error w (trace st ++ [request title content; EvUpdate v id])
      = Some e →
    after st st1 [request title content; EvUpdate v id; EvCommit]
      (committed st) (updated w id title content v st) →
    tried w id title content st st1 (Raise e)
| tried_print_raises v e :
    embeddings_create w (trace st) [provider_input title content]
      default_model = inr v →
    update_error w (trace st ++ [request title content]) v id = None →
    commit_error w (trace st ++ [request title content; EvUpdate v id])
      = None →
    call_error w
      (trace st ++ [request title content; EvUpdate v id; EvCommit])
      (EvPrint (MsgProcessed id title)) = Some e →
    after st st1
      [request title content; EvUpdate v id; EvCommit;
       EvPrint (MsgProcessed id title)]
      (updated w id title content v st) (updated w id title content v st) →
    tried w id title content st st1 (Raise e)
| tried_returns v :
    embeddings_create w (trace st) [provider_input title content]
      default_model = inr v →
    update_error w (trace st ++ [request title content]) v id = None →
    commit_error w (trace st ++ [request title content; EvUpdate v id])
      = None →
    call_error w
      (trace st ++ [request title content; EvUpdate v id; EvCommit])
      (EvPrint (MsgProcessed id title)) = None →
    after st st1
      [request title content; EvUpdate v id; EvCommit;
       EvPrint (MsgProcessed id title)]
      (updated w id title content v st) (updated w id title content v st) →
    tried w id title content st st1 (Ok tt).

(** The handler, entered in [st1] with the exception [e]. *)
Inductive handled (w : world) (id : Z) (e : exn) (st1 st' : state) :
    result unit → Prop :=
| handled_print_raises e' :
    call_error w (trace st1) (EvPrint (MsgError id e)) = Some e' →
    after st1 st' [EvPrint (MsgError id e)] (committed st1) (pending st1) →
    handled w id e st1 st' (Raise e')
| handled_rollback_raises e' :
    call_error w (trace st1) (EvPrint (MsgError id e)) = None →
    call_error w (trace st1 ++ [EvPrint (MsgError id e)]) EvRollback
      = Some e' →
    after st1 st' [EvPrint (MsgError id e); EvRollback]
      (committed st1) (pending st1) →
    handled w id e st1 st' (Raise e')
| handled_returns :
    call_error w (trace st1) (EvPrint (MsgError id e)) = None →
    call_error w (trace st1 ++ [EvPrint (MsgError id e)]) EvRollback = None →
    after st1 st' [EvPrint (MsgError id e); EvRollback]
      (committed st1) (committed st1) →
    handled w id e st1 st' (Ok tt).

(** A turn: the body returns, or it raises and the handler runs. *)
Inductive turn (w : world) (id : Z) (title content : option str)
    (st st' : state) (r : result unit) : Prop :=
| turn_returns :
    tried w id title content st st' (Ok tt) → r = Ok tt →
    turn w id title content st st' r
| turn_handled st1 e :
    tried w id title content st st1 (Raise e) →
    handled w id e st1 st' r →
    turn w id title content st st' r.

(** What a turn can call once its request is made. *)
Definition follows_request (w : world) (id : Z) (title content : option str)
    (tr : list event) (ev : event) : Prop :=
  match ev with
  | EvUpdate v i =>
      i = id ∧
      embeddings_create w tr [provider_input title content] default_model
        = inr v
  | EvCommit | EvRollback => True
  | EvPrint (MsgProcessed i t) => i = id ∧ t = title
  | EvPrint (MsgError i _) => i = id
  | _ => False
  end.

(** The state once the first [k] of [notes] have had their turn, or the
    state in which the loop was left before that. *)
Definition state_after (w : world) (notes : list candidate) (st : state)
    (k : nat) : state :=
  (for_each (process_note w) (take k notes) st).1.

(** The loop gets as far as turn [k]: none of the turns before it let an
    exception out. *)
Definition reached (w : world) (notes : list candidate) (st : state)
    (k : nat) : Prop :=
  (for_each (process_note w) (take k notes) st).2 = Ok tt.

(** The calls before the loop, on the table [t], and the calls after
    it. *)
Definition prelude_calls (dsn : option string) (t : table) : list event :=
  [EvConnect dsn; EvCursor; EvSelect; EvFetchall;
   EvPrint (MsgFound (length (select_unembedded t)))].

Definition closing_calls : list event :=
  [EvCursorClose; EvConnClose; EvPrint MsgFinished].

(** The state when the loop starts: the connection is open and the cursor
    holds the notes without an embedding. *)
Definition loop_start (dsn : option string) (st : state) : state :=
  {| trace := trace st ++
       [EvConnect dsn; EvCursor; EvSelect; EvFetchall;
        EvPrint (MsgFound (length (select_unembedded (pending st))))];
     committed := committed st; pending := pending st;
     rows := select_unembedded (pending st) |}.

(** The state once cursor and connection are closed. *)
Definition closed (st : state) : state :=
  {| trace := trace st ++ [EvCursorClose; EvConnClose; EvPrint MsgFinished];
     committed := committed st; pending := pending st; rows := rows st |}.

(** The state in which [process_notes] is called. *)
Definition client_built (w : world) (key : string) : state :=
  log (EvOpenAI key) (initial w).

(** The state in which the script is left when the [j]-th call before
    the loop raises: the cursor holds rows once the SELECT, the third
    call, has returned. *)
Definition stopped_before (w : world) (key : string) (j : nat) : state :=
  {| trace := EvOpenAI key ::
       take j (prelude_calls (environ w !! "DATABASE_URL") (notes_table w));
     committed := notes_table w; pending := notes_table w;
     rows := if decide (4 ≤ j)%nat then select_unembedded (notes_table w)
             else [] |}.

(** The state [st] of the end of the loop with the first [k] calls that
    follow the loop. *)
Definition stopped_after (st : state) (k : nat) : state :=
  {| trace := trace st ++ take k closing_calls; committed := committed st;
     pending := pending st; rows := rows st |}.

(** How a run of the script ends: without a credential, at one of the
    calls before the loop, in the loop or after it. *)
Inductive run_end (w : world) : state → result unit → Prop :=
| end_no_key :
    truthy (environ w !! "OPENAI_API_KEY") = false →
    run_end w (initial w)
      (Raise (Exn "ValueError" "OPENAI_API_KEY environment variable is required"))
| end_connect key e :
    environ w !! "OPENAI_API_KEY" = Some key → key ≠ "" →
    connect_error w (environ w !! "DATABASE_URL") = Some e →
    run_end w (stopped_before w key 1) (Raise e)
| end_before key j e :
    environ w !! "OPENAI_API_KEY" = Some key → key ≠ "" →
    connect_error w (environ w !! "DATABASE_URL") = None →
    (2 ≤ j ≤ 5)%nat →
    run_end w (stopped_before w key j) (Raise e)
| end_after key k r :
    environ w !! "OPENAI_API_KEY" = Some key → key ≠ "" →
    connect_error w (environ w !! "DATABASE_URL") = None →
    (k ≤ 3)%nat →
    match (for_each (process_note w) (select_unembedded (notes_table w))
             (loop_start (environ w !! "DATABASE_URL")
                (client_built w key))).2 with
    | Raise e => k = 0%nat ∧ r = Raise e
    | Ok _ => (k = 3%nat ∧ r = Ok tt) ∨ ((1 ≤ k)%nat ∧ ∃ e, r = Raise e)
    end →
    run_end w
      (stopped_after
         (for_each (process_note w) (select_unembedded (notes_table w))
            (loop_start (environ w !! "DATABASE_URL")
               (client_built w key))).1 k) r.

(** The datastore calls and the provider calls among the events. *)
Definition datastore_call (ev : event) : bool :=
  match ev with
  | EvConnect _ | EvCursor | EvSelect | EvFetchall | EvUpdate _ _
  | EvCommit | EvRollback | EvCursorClose | EvConnClose => true
  | _ => false
  end.

Definition provider_call (ev : event) : bool :=
  match ev with
  | EvEmbeddingsCreate _ _ => true
  | _ => false
  end.

(** No text of a request to the provider holds a newline. *)
Definition sent_without_newline (ev : event) : Prop :=
  match ev with
  | EvEmbeddingsCreate input _ => Forall (λ t, newline ∉ t) input
  | _ => True
  end.

(** A row is as it was, or both its [embedding] and its [indexed_at] were
    set by one UPDATE. *)
Definition untouched_or_paired (r0 r : note) : Prop :=
  r = r0 ∨ ∃ v now, r = set_embedding v now r0.

(** Every row of [t0] is, in the committed table and in the open
    transaction, untouched or updated in both columns at once. *)
Definition paired (t0 : table) (st : state) : Prop :=
  ∀ p r0, t0 !! p = Some r0 →
    ∃ r r', committed st !! p = Some r ∧ pending st !! p = Some r' ∧
            untouched_or_paired r0 r ∧ untouched_or_paired r0 r'.

(** The rows of [t0] that satisfy [P] are where they were and as they
    were, in the committed table and in the open transaction. *)
Definition kept (P : note → Prop) (t0 : table) (st : state) : Prop :=
  ∀ p r, t0 !! p = Some r → P r →
    committed st !! p = Some r ∧ pending st !! p = Some r.

(** Every UPDATE in the trace is addressed to an identifier in [ids]. *)
Definition updates_within (ids : Z → Prop) (st : state) : Prop :=
  ∀ v i, EvUpdate v i ∈ trace st → ids i.

End Turn.

Import Turn.

(** ** A small world to run the script in *)

Module Sample.

Definition v3 : vector := [S754_zero false; S754_zero true; S754_infinity false].

Definition boom : exn := Exn "APIError" "quota exceeded".

(** Note 1 has a newline in its content, note 2 a NULL title, note 3 is
    embedded already and has a NULL content. *)
Definition notes : table :=
  [ Note 1 (Some (lit "A")) (Some [120; 10; 121]%N) None None;
    Note 2 None (Some (lit "b")) None None;
    Note 3 (Some (lit "t")) None (Some v3) (Some 5) ].

(** The provider refuses the first request and answers [v3] afterwards;
    the datastore accepts every statement and every other call
    returns. *)
Definition w : world :=
  {| process_env := {[ "OPENAI_API_KEY" := "sk-test";
                       "DATABASE_URL" := "postgresql://localhost/notes" ]};
     env_file := [("OPENAI_API_KEY", "sk-file"); ("LOG_LEVEL", "debug")];
     connect_error := λ _, None;
     notes_table := notes;
     embeddings_create := λ tr _ _,
       if decide (Exists (λ ev, provider_call ev = true) tr) then inr v3
       else inl boom;
     update_error := λ _ _ _, None;
     commit_error := λ _, None;
     call_error := λ _ _, None;
     server_now := λ tr, Z.of_nat (length tr) |}.

(** The same world with no credential anywhere. *)
Definition w_no_key : world :=
  {| process_env := {[ "DATABASE_URL" := "postgresql://localhost/notes" ]};
     env_file := [("LOG_LEVEL", "debug")];
     connect_error := connect_error w;
     notes_table := notes;
     embeddings_create := embeddings_create w;
     update_error := update_error w;
     commit_error := commit_error w;
     call_error := call_error w;
     server_now := server_now w |}.

(** A table that breaks the key: an embedded row shares its identifier
    with a row that has no embedding.  The provider always answers. *)
Definition w_shared_id : world :=
  {| process_env := process_env w;
     env_file := [];
     connect_error := connect_error w;
     notes_table :=
       [ Note 7 (Some (lit "new")) (Some (lit "x")) None None;
         Note 7 (Some (lit "old")) (Some (lit "y")) (Some []) (Some 5) ];
     embeddings_create := λ _ _ _, inr v3;
     update_error := update_error w;
     commit_error := commit_error w;
     call_error := call_error w;
     server_now := server_now w |}.

(** A title as long as the whole budget. *)
Definition long_title : str := replicate (Z.to_nat 8000) 97%N.

(** The state of [w] when its loop starts. *)
Definition start : state :=
  loop_start (Some "postgresql://localhost/notes") (client_built w "sk-test").

Definition note1 : candidate := (1, Some (lit "A"), Some [120; 10; 121]%N).
Definition note2 : candidate := (2, None, Some (lit "b")).

End Sample.

(** ** What can be read off a run *)

Module Observe.

(** The messages handed to [print], in order. *)
Definition printed (tr : list event) : list message :=
  omap (λ ev, match ev with EvPrint m => Some m | _ => None end) tr.

(** The calls of [client.embeddings.create], in order. *)
Definition requests (tr : list event) : list event :=
  filter (λ ev, provider_call ev = true) tr.

(** The [print] calls of the turn of the note [n]: the message that it
    was processed, or the message of its error, or the first, which
    raised, and then the second. *)
Definition reports (n : candidate) (ms : list message) : Prop :=
  ms = [MsgProcessed n.1.1 n.1.2] ∨
  (∃ e, ms = [MsgError n.1.1 e]) ∨
  (∃ e, ms = [MsgProcessed n.1.1 n.1.2; MsgError n.1.1 e]).

(** The calls that write to the datastore. *)
Definition write_call (ev : event) : bool :=
  match ev with
  | EvUpdate _ _ | EvCommit => true
  | _ => false
  end.

(** The vector of an UPDATE is what the provider answered to the request
    of a selected note with the identifier the UPDATE is addressed to. *)
Definition update_from_provider (w : world) (t : table) (ev : event) : Prop :=
  match ev with
  | EvUpdate v i =>
      ∃ tr title content,
        (i, title, content) ∈ select_unembedded t ∧
        embeddings_create w tr [provider_input title content] default_model
          = inr v
  | _ => True
  end.

(** The configuration with which the connection is opened: a credential
    that is not empty, and the datastore accepts what [DATABASE_URL]
    holds. *)
Definition connected (w : world) (key : string) (dsn : option string) : Prop :=
  environ w !! "OPENAI_API_KEY" = Some key ∧ key ≠ "" ∧
  environ w !! "DATABASE_URL" = dsn ∧ connect_error w dsn = None.

(** The calls outside the [try] body: all but the four calls of the
    body, of which [call_error] decides the last, the message that a note
    was processed. *)
Definition outside_try (ev : event) : bool :=
  match ev with
  | EvPrint (MsgProcessed _ _) => false
  | _ => true
  end.

(** No call outside the [try] body raises: the calls before and after
    the loop, and the [print] and the [rollback] of the handler. *)
Definition outside_calls_return (w : world) : Prop :=
  ∀ tr ev, outside_try ev = true → call_error w tr ev = None.

(** No request, UPDATE or commit raises. *)
Definition services_up (w : world) : Prop :=
  (∀ tr input model, ∃ v, embeddings_create w tr input model = inr v) ∧
  (∀ tr v i, update_error w tr v i = None) ∧
  (∀ tr, commit_error w tr = None).

(** Every request raises. *)
Definition provider_down (w : world) : Prop :=
  ∀ tr input model, ∃ e, embeddings_create w tr input model = inl e.

(** The world [w] with another table. *)
Definition with_table (w : world) (t : table) : world :=
  {| process_env := process_env w; env_file := env_file w;
     connect_error := connect_error w; notes_table := t;
     embeddings_create := embeddings_create w;
     update_error := update_error w; commit_error := commit_error w;
     call_error := call_error w; server_now := server_now w |}.

(** The trace of a run that finds nothing to process. *)
Definition idle_trace (key : string) (dsn : option string) : list event :=
  [EvOpenAI key; EvConnect dsn; EvCursor; EvSelect; EvFetchall;
   EvPrint (MsgFound 0); EvCursorClose; EvConnClose; EvPrint MsgFinished].

End Observe.

Import Observe.

(** ** More worlds *)

Module Cases.

Definition key : string := "sk-test".
Definition dsn : option string := Some "postgresql://localhost/notes".

(** [Sample.w] with a provider that answers every request. *)
Definition w_up : world :=
  {| process_env := process_env Sample.w; env_file := env_file Sample.w;
     connect_error := connect_error Sample.w;
     notes_table := Sample.notes;
     embeddings_create := λ _ _ _, inr Sample.v3;
     update_error := update_error Sample.w;
     commit_error := commit_error Sample.w;
     call_error := call_error Sample.w;
     server_now := server_now Sample.w |}.

(** [Sample.w] with a provider that refuses every request. *)
Definition w_down : world :=
  {| process_env := process_env Sample.w; env_file := env_file Sample.w;
     connect_error := connect_error Sample.w;
     notes_table := Sample.notes;
     embeddings_create := λ _ _ _, inl Sample.boom;
     update_error := update_error Sample.w;
     commit_error := commit_error Sample.w;
     call_error := call_error Sample.w;
     server_now := server_now Sample.w |}.

(** [Sample.w] when only the embedded note 3 is in the table. *)
Definition w_done : world :=
  with_table Sample.w
    [Note 3 (Some (lit "t")) None (Some Sample.v3) (Some 5)].

Definition refused : exn := Exn "OperationalError" "connection refused".

(** [Sample.w] with a datastore that refuses the connection. *)
Definition w_refused : world :=
  {| process_env := process_env Sample.w; env_file := env_file Sample.w;
     connect_error := λ _, Some refused;
     notes_table := Sample.notes;
     embeddings_create := embeddings_create Sample.w;
     update_error := update_error Sample.w;
     commit_error := commit_error Sample.w;
     call_error := call_error Sample.w;
     server_now := server_now Sample.w |}.

Definition dropped : exn :=
  Exn "OperationalError" "server closed the connection unexpectedly".

Definition gone : exn := Exn "InterfaceError" "connection already closed".

(** [w_up] with a connection that the server drops at the first UPDATE:
    the UPDATE raises, and so does the rollback of the handler. *)
Definition w_dropped : world :=
  {| process_env := process_env Sample.w; env_file := env_file Sample.w;
     connect_error := connect_error Sample.w;
     notes_table := Sample.notes;
     embeddings_create := λ _ _ _, inr Sample.v3;
     update_error := λ _ _ _, Some dropped;
     commit_error := commit_error Sample.w;
     call_error := λ _ ev,
       match ev with
       | EvRollback => Some gone
       | _ => None
       end;
     server_now := server_now Sample.w |}.

Definition unprintable : exn :=
  Exn "UnicodeEncodeError" "'ascii' codec can't encode character".

(** [w_up] with a standard output that cannot take the title of note 1:
    the message that note 1 was processed raises. *)
Definition w_unprintable : world :=
  {| process_env := process_env Sample.w; env_file := env_file Sample.w;
     connect_error := connect_error Sample.w;
     notes_table := Sample.notes;
     embeddings_create := λ _ _ _, inr Sample.v3;
     update_error := update_error Sample.w;
     commit_error := commit_error Sample.w;
     call_error := λ _ ev,
       match ev with
       | EvPrint (MsgProcessed 1 _) => Some unprintable
       | _ => None
       end;
     server_now := server_now Sample.w |}.

Definition start_unprintable : state :=
  loop_start dsn (client_built w_unprintable key).

End Cases.

(** * Properties *)

(** ** The script at work *)

Example sample_full_text :
  full_text None (Some (lit "b")) = lit "None" ++ [10; 10]%N ++ lit "b".
Proof. reflexivity. Qed.

Example sample_provider_input :
  provider_input (Some (lit "A")) (Some [120; 10; 121]%N)
  = lit "A" ++ [32; 32]%N ++ [120; 32; 121]%N.
Proof. reflexivity. Qed.

Example sample_slice_negative : slice_to (-1) (lit "abc") = lit "ab".
Proof. reflexivity. Qed.

(** The first request is refused, so note 1 is reported and rolled back;
    note 2 is embedded and committed; note 3 is not looked at. *)
Example sample_run_trace :
  trace (run Sample.w).1
  = [ EvOpenAI "sk-test";
      EvConnect (Some "postgresql://localhost/notes");
      EvCursor; EvSelect; EvFetchall; EvPrint (MsgFound 2);
      EvEmbeddingsCreate [lit "A" ++ [32; 32]%N ++ [120; 32; 121]%N]
        "text-embedding-3-small";
      EvPrint (MsgError 1 Sample.boom); EvRollback;
      EvEmbeddingsCreate [lit "None" ++ [32; 32]%N ++ lit "b"]
        "text-embedding-3-small";
      EvUpdate Sample.v3 2; EvCommit; EvPrint (MsgProcessed 2 None);
      EvCursorClose; EvConnClose; EvPrint MsgFinished ].
Proof. by vm_compute. Qed.

Example sample_run_table :
  committed (run Sample.w).1
  = [ Note 1 (Some (lit "A")) (Some [120; 10; 121]%N) None None;
      Note 2 None (Some (lit "b")) (Some Sample.v3) (Some 10);
      Note 3 (Some (lit "t")) None (Some Sample.v3) (Some 5) ] ∧
  (run Sample.w).2 = Ok tt.
Proof. by vm_compute. Qed.

(** The connection is dropped at the first UPDATE: the rollback of the
    handler raises, and the loop is left before note 2 has its turn. *)
Example dropped_run_trace :
  trace (run Cases.w_dropped).1
  = [ EvOpenAI "sk-test";
      EvConnect (Some "postgresql://localhost/notes");
      EvCursor; EvSelect; EvFetchall; EvPrint (MsgFound 2);
      EvEmbeddingsCreate [lit "A" ++ [32; 32]%N ++ [120; 32; 121]%N]
        "text-embedding-3-small";
      EvUpdate Sample.v3 1;
      EvPrint (MsgError 1 Cases.dropped); EvRollback ] ∧
  (run Cases.w_dropped).2 = Raise Cases.gone.
Proof. by vm_compute. Qed.

(** The message that note 1 was processed raises after the commit: the
    note is reported as an error and is embedded all the same. *)
Example unprintable_run :
  printed (trace (run Cases.w_unprintable).1)
  = [ MsgFound 2; MsgProcessed 1 (Some (lit "A"));
      MsgError 1 Cases.unprintable; MsgProcessed 2 None; MsgFinished ] ∧
  embedding <$> committed (run Cases.w_unprintable).1
  = [Some Sample.v3; Some Sample.v3; Some Sample.v3] ∧
  (run Cases.w_unprintable).2 = Ok tt.
Proof. by vm_compute. Qed.

Example sample_run_no_key :
  run Sample.w_no_key
  = (initial Sample.w_no_key,
     Raise (Exn "ValueError" "OPENAI_API_KEY environment variable is required")).
Proof. by vm_compute. Qed.

(** ** Text *)

Section text_facts.

Implicit Types s t : str.

Lemma len_nonneg s : 0 ≤ len s.
Proof. unfold len. lia. Qed.

Lemma len_app s t : len (s ++ t) = len s + len t.
Proof. unfold len. rewrite length_app. lia. Qed.

Lemma len_replace old new s : len (replace old new s) = len s.
Proof. unfold len, replace. by rewrite length_fmap. Qed.

Lemma len_slice_to stop s : 0 ≤ stop → len (slice_to stop s) = Z.min stop (len s).
Proof.
  intros Hstop. unfold slice_to, len.
  rewrite decide_True by done. rewrite length_take. lia.
Qed.

Lemma slice_to_fits stop s : len s ≤ stop → slice_to stop s = s.
Proof.
  intros Hfit. pose proof (len_nonneg s) as Hs. unfold slice_to.
  rewrite decide_True by lia. apply take_ge. unfold len in *. lia.
Qed.

Lemma slice_to_prefix stop s : slice_to stop s `prefix_of` s.
Proof. unfold slice_to. case_decide; apply prefix_take. Qed.

Lemma slice_to_app_l stop s t : len s ≤ stop → s `prefix_of` slice_to stop (s ++ t).
Proof.
  intros Hfit. pose proof (len_nonneg s) as Hs. unfold slice_to.
  rewrite decide_True by lia.
  rewrite take_app_ge by (unfold len in *; lia).
  by apply prefix_app_r.
Qed.

Lemma replace_lookup old new s i :
  replace old new s !! i = (λ c, if decide (c = old) then new else c) <$> s !! i.
Proof. unfold replace. apply list_lookup_fmap. Qed.

Lemma replace_removes old new s : old ≠ new → old ∉ replace old new s.
Proof.
  intros Hne Hin. unfold replace in Hin.
  apply list_elem_of_fmap in Hin as (c & Hc & _).
  case_decide; congruence.
Qed.

Lemma replace_absent old new s : old ∉ s → replace old new s = s.
Proof.
  intros Hout. unfold replace. induction s as [|c s IH]; [done|].
  apply not_elem_of_cons in Hout as [Hc Hs]. cbn.
  rewrite decide_False by done. f_equal. by apply IH.
Qed.

Lemma len_full_text title content :
  len (full_text title content) = len (to_str title) + 2 + len (to_str content).
Proof. unfold full_text. rewrite !len_app. unfold len at 2. cbn. lia. Qed.

Lemma len_truncated_text title content :
  len (truncated_text title content)
  = Z.min (len (to_str title) + 2 + len (to_str content)) 8000.
Proof.
  unfold truncated_text. rewrite len_slice_to by lia.
  rewrite len_full_text. lia.
Qed.

End text_facts.

(** ** One turn of the loop *)

Ltac py_unfold :=
  unfold handler, print, rollback, cursor, cursor_close, conn_close, OpenAI,
    execute_select, fetchall, call, emit, modify, gets, raise, mret, M_ret,
    ret, mbind, M_bind, bind in *.

Ltac py_after :=
  unfold after, updated; py_unfold; cbn; rewrite <-?app_assoc; cbn; done.

Section turn_facts.

Context (w : world).

Lemma try_body_tried id title content st :
  tried w id title content st (try_body w (id, title, content) st).1
    (try_body w (id, title, content) st).2.
Proof.
  unfold try_body, get_embedding, embeddings_create_call, mbind, M_bind, bind.
  fold (provider_input title content). cbn [log trace].
  destruct (embeddings_create _ _ _ _) as [e|v] eqn:Hreq.
  { eapply tried_request_raises; [exact Hreq|py_after]. }
  unfold execute_update. cbn [log trace committed pending rows].
  fold (request title content).
  destruct (update_error _ _ _ _) as [e|] eqn:Hupd.
  { eapply tried_update_raises; [exact Hreq|exact Hupd|py_after]. }
  unfold commit. cbn [log trace committed pending rows].
  rewrite <-!app_assoc. cbn [app].
  destruct (commit_error _) as [e|] eqn:Hcom.
  { eapply tried_commit_raises; [exact Hreq|exact Hupd|exact Hcom|py_after]. }
  unfold print, call. cbn [log trace committed pending rows].
  rewrite <-?app_assoc. cbn [app].
  destruct (call_error _ _ _) as [e|] eqn:Hprint.
  { eapply tried_print_raises;
      [exact Hreq|exact Hupd|exact Hcom|exact Hprint|py_after]. }
  eapply tried_returns;
    [exact Hreq|exact Hupd|exact Hcom|exact Hprint|py_after].
Qed.

Lemma handler_handled id title content e st1 :
  handled w id e st1 (handler w (id, title, content) e st1).1
    (handler w (id, title, content) e st1).2.
Proof.
  unfold handler, print, rollback, call, modify, mbind, M_bind, bind.
  cbn [log trace committed pending rows].
  destruct (call_error w (trace st1) _) as [e'|] eqn:Hprint.
  { eapply handled_print_raises; [exact Hprint|py_after]. }
  cbn [log trace committed pending rows].
  destruct (call_error w (trace st1 ++ [EvPrint (MsgError id e)]) EvRollback)
    as [e'|] eqn:Hroll.
  { eapply handled_rollback_raises; [exact Hprint|exact Hroll|py_after]. }
  eapply handled_returns; [exact Hprint|exact Hroll|py_after].
Qed.

Lemma process_note_turn id title content st :
  turn w id title content st (process_note w (id, title, content) st).1
    (process_note w (id, title, content) st).2.
Proof.
  pose proof (try_body_tried id title content st) as Htried.
  unfold process_note, try_except.
  destruct (try_body w (id, title, content) st) as [st1 [[]|e]].
  - by apply turn_returns.
  - eapply turn_handled; [exact Htried|]. apply handler_handled.
Qed.

Lemma process_note_turn' (n : candidate) st :
  turn w n.1.1 n.1.2 n.2 st (process_note w n st).1 (process_note w n st).2.
Proof. destruct n as [[id title] content]. apply process_note_turn. Qed.

(** *** What the relations say about the tables *)

Lemma tried_tables id title content st st1 r :
  tried w id title content st st1 r →
  (committed st1 = committed st ∧
   (pending st1 = pending st ∨
    ∃ v now, pending st1 = update_embedding v now id (pending st))) ∨
  (∃ v now, committed st1 = update_embedding v now id (pending st) ∧
            pending st1 = committed st1).
Proof.
  intros [e ? (_ & -> & -> & _)|v e ? ? (_ & -> & -> & _)
         |v e ? ? ? (_ & -> & -> & _)|v e ? ? ? ? (_ & -> & -> & _)
         |v ? ? ? ? (_ & -> & -> & _)]; unfold updated; eauto 10.
Qed.

Lemma handled_tables id e st1 st' r :
  handled w id e st1 st' r →
  committed st' = committed st1 ∧
  (pending st' = pending st1 ∨ pending st' = committed st').
Proof.
  intros [e' ? (_ & -> & -> & _)|e' ? ? (_ & -> & -> & _)
         |? ? (_ & -> & -> & _)]; eauto.
Qed.

(** After a turn the committed table is what it was or what the UPDATE
    of the turn made of the open transaction; the open transaction is
    what it was, or the committed table, or what that UPDATE made of
    it. *)
Lemma turn_tables id title content st st' r :
  turn w id title content st st' r →
  (committed st' = committed st ∨
   ∃ v now, committed st' = update_embedding v now id (pending st)) ∧
  (pending st' = pending st ∨ pending st' = committed st' ∨
   ∃ v now, pending st' = update_embedding v now id (pending st)).
Proof.
  intros [Htried _|st1 e Htried Hhandled].
  - destruct (tried_tables _ _ _ _ _ _ Htried)
      as [(-> & Hp)|(v & now & Hc & ->)].
    + split; [by left|]. destruct Hp as [->|(v & now & ->)]; eauto 10.
    + split; [by eauto|]. right. by left.
  - destruct (handled_tables _ _ _ _ _ Hhandled) as (Hc' & Hp).
    destruct (tried_tables _ _ _ _ _ _ Htried)
      as [(Hc1 & Hp1)|(v & now & Hc1 & Hp1)].
    + split; [left; congruence|].
      destruct Hp as [Hp|Hp]; [|by eauto].
      destruct Hp1 as [Hp1|(v & now & Hp1)]; [left; congruence|].
      right. right. exists v, now. congruence.
    + split; [right; exists v, now; congruence|].
      right. left. destruct Hp as [Hp|Hp]; congruence.
Qed.

(** A turn that returns leaves no transaction open. *)
Lemma turn_settled id title content st st' :
  turn w id title content st st' (Ok tt) → pending st' = committed st'.
Proof.
  intros [Htried _|st1 e Htried Hhandled].
  - inversion Htried as [| | | |v ? ? ? ? (_ & -> & -> & _)]. done.
  - inversion Hhandled as [| |? ? (_ & -> & -> & _)]. done.
Qed.

Lemma turn_rows id title content st st' r :
  turn w id title content st st' r → rows st' = rows st.
Proof.
  intros [Htried _|st1 e Htried Hhandled].
  - by destruct Htried as [e ? (_ & _ & _ & ->)|v e ? ? (_ & _ & _ & ->)
                          |v e ? ? ? (_ & _ & _ & ->)
                          |v e ? ? ? ? (_ & _ & _ & ->)
                          |v ? ? ? ? (_ & _ & _ & ->)].
  - transitivity (rows st1).
    + by destruct Hhandled as [e' ? (_ & _ & _ & ->)|e' ? ? (_ & _ & _ & ->)
                              |? ? (_ & _ & _ & ->)].
    + by destruct Htried as [e0 ? (_ & _ & _ & ->)|v e0 ? ? (_ & _ & _ & ->)
                            |v e0 ? ? ? (_ & _ & _ & ->)
                            |v e0 ? ? ? ? (_ & _ & _ & ->)
                            |v ? ? ? ? (_ & _ & _ & ->)].
Qed.

End turn_facts.

(** ** Persistence and the turn *)

Section persist_facts.

Context (w : world).

Implicit Types (st : state) (n : candidate).

(** The [try] body is the persistence followed by the message.  When the
    persistence raises nothing is committed; when it returns, the UPDATE
    is committed. *)
Lemma persist_cases id title content st :
  match (persist w (id, title, content) st).2 with
  | Raise e =>
      try_body w (id, title, content) st
      = ((persist w (id, title, content) st).1, Raise e) ∧
      committed (persist w (id, title, content) st).1 = committed st ∧
      ∃ evs, trace (persist w (id, title, content) st).1
             = trace st ++ request title content :: evs
  | Ok _ =>
      ∃ v,
        embeddings_create w (trace st) [provider_input title content]
          default_model = inr v ∧
        after st (persist w (id, title, content) st).1
          [request title content; EvUpdate v id; EvCommit]
          (updated w id title content v st)
          (updated w id title content v st) ∧
        try_body w (id, title, content) st
        = print w (MsgProcessed id title) (persist w (id, title, content) st).1
  end.
Proof.
  unfold persist, try_body, get_embedding, embeddings_create_call, mbind,
    M_bind, bind.
  fold (provider_input title content). cbn [log trace].
  destruct (embeddings_create _ _ _ _) as [e|v] eqn:Hreq.
  { cbn. split_and!; [done..|]. by exists []. }
  unfold execute_update. cbn [log trace committed pending rows].
  fold (request title content).
  destruct (update_error _ _ _ _) as [e|] eqn:Hupd.
  { cbn. split_and!; [done..|]. exists [EvUpdate v id].
    by rewrite <-app_assoc. }
  unfold commit. cbn [log trace committed pending rows].
  destruct (commit_error _) as [e|] eqn:Hcom.
  { cbn. split_and!; [done..|]. exists [EvUpdate v id; EvCommit].
    by rewrite <-!app_assoc. }
  cbn. exists v. split_and!; [done|py_after|done].
Qed.

Lemma process_note_after_persist id title content st e :
  (persist w (id, title, content) st).2 = Raise e →
  process_note w (id, title, content) st
  = handler w (id, title, content) e (persist w (id, title, content) st).1.
Proof.
  intros Hraise. pose proof (persist_cases id title content st) as Hcases.
  rewrite Hraise in Hcases. destruct Hcases as (Hbody & _).
  unfold process_note, try_except. by rewrite Hbody.
Qed.

(** When the persistence raises, [print] is called with the identifier
    and the exception, and nothing is committed; when the handler
    returns, the rollback was its last call and no transaction is left
    open. *)
Lemma persist_raised n st e :
  (persist w n st).2 = Raise e →
  let st1 := (persist w n st).1 in
  let st' := (process_note w n st).1 in
  (∃ evs, trace st1 = trace st ++ request n.1.2 n.2 :: evs) ∧
  committed st' = committed st ∧
  (∃ rest, trace st' = trace st1 ++ EvPrint (MsgError n.1.1 e) :: rest) ∧
  ((process_note w n st).2 = Ok tt →
   trace st' = trace st1 ++ [EvPrint (MsgError n.1.1 e); EvRollback] ∧
   pending st' = committed st).
Proof.
  destruct n as [[id title] content]. intros Hraise. cbn zeta. cbn [fst snd].
  rewrite (process_note_after_persist _ _ _ _ _ Hraise).
  pose proof (persist_cases id title content st) as Hcases.
  rewrite Hraise in Hcases. destruct Hcases as (_ & Hc & Hevs).
  pose proof (handler_handled w id title content e
                (persist w (id, title, content) st).1) as Hhandled.
  split; [exact Hevs|].
  destruct Hhandled as [e' ? (Htr & Hc' & _)|e' ? ? (Htr & Hc' & _)
                       |? ? (Htr & Hc' & Hp' & _)].
  - split_and!; [congruence|by eauto|done].
  - split_and!; [congruence|by eauto|done].
  - split_and!; [congruence|by eauto|]. intros _. split; congruence.
Qed.

(** When the persistence returns, the UPDATE is committed whatever the
    message and the handler do afterwards. *)
Lemma persist_returned n st :
  (persist w n st).2 = Ok tt →
  let st' := (process_note w n st).1 in
  ∃ v now,
    (∃ rest,
       trace st' = trace st ++
         [request n.1.2 n.2; EvUpdate v n.1.1; EvCommit;
          EvPrint (MsgProcessed n.1.1 n.1.2)] ++ rest) ∧
    committed st' = update_embedding v now n.1.1 (pending st).
Proof.
  destruct n as [[id title] content]. intros Hok. cbn zeta. cbn [fst snd].
  pose proof (persist_cases id title content st) as Hcases.
  rewrite Hok in Hcases. destruct Hcases as (v & _ & Hafter & Hbody).
  destruct Hafter as (Htr & Hc & Hp & _).
  exists v, (server_now w (trace st ++ [request title content])).
  unfold process_note, try_except. rewrite Hbody.
  unfold print, call. rewrite Htr.
  destruct (call_error _ _ _) as [e|] eqn:Hprint; cbn [fst snd].
  - pose proof (handler_handled w id title content e
                  (log (EvPrint (MsgProcessed id title))
                     (persist w (id, title, content) st).1)) as Hhandled.
    destruct Hhandled as [e' ? (Htr' & Hc' & _)|e' ? ? (Htr' & Hc' & _)
                         |? ? (Htr' & Hc' & _)];
      (split; [|by rewrite Hc'; cbn [log committed]; rewrite Hc]);
      eexists; rewrite Htr'; cbn [log trace]; rewrite Htr, <-!app_assoc;
      cbn [app]; done.
  - split; [|by cbn [log committed]; rewrite Hc]. exists [].
    cbn [log trace]. by rewrite Htr, <-!app_assoc.
Qed.

(** When the whole body returns, the turn is the body: the four calls
    and nothing else, and no transaction is left open. *)
Lemma try_body_returned n st :
  (try_body w n st).2 = Ok tt →
  let st' := (process_note w n st).1 in
  (process_note w n st).2 = Ok tt ∧
  (persist w n st).2 = Ok tt ∧
  ∃ v now,
    trace st' = trace st ++
      [request n.1.2 n.2; EvUpdate v n.1.1; EvCommit;
       EvPrint (MsgProcessed n.1.1 n.1.2)] ∧
    committed st' = update_embedding v now n.1.1 (pending st) ∧
    pending st' = committed st'.
Proof.
  destruct n as [[id title] content]. intros Hok. cbn zeta. cbn [fst snd].
  pose proof (persist_cases id title content st) as Hcases.
  pose proof (try_body_tried w id title content st) as Htried.
  unfold process_note, try_except.
  destruct (try_body w (id, title, content) st) as [st1 r] eqn:Hbody.
  cbn in Hok. subst r. cbn [fst snd] in *.
  split; [done|].
  inversion Htried as [| | | |v Hreq Hupd Hcom Hprint (Htr & Hc & Hp & _)].
  split.
  - destruct (persist w (id, title, content) st).2 as [[]|e]; [done|].
    by destruct Hcases as (Hcontra & _).
  - exists v, (server_now w (trace st ++ [request title content])).
    unfold updated in *. split_and!; congruence.
Qed.

End persist_facts.

(** ** The loop *)

Section loop_facts.

Context (w : world).

Implicit Types (st : state) (notes : list candidate) (n : candidate).

Lemma for_each_cons_ok n notes st :
  (process_note w n st).2 = Ok tt →
  for_each (process_note w) (n :: notes) st
  = for_each (process_note w) notes (process_note w n st).1.
Proof.
  intros Hok. cbn [for_each]. unfold bind.
  destruct (process_note w n st) as [st' r]. cbn in *. by subst r.
Qed.

Lemma for_each_cons_raise n notes st e :
  (process_note w n st).2 = Raise e →
  for_each (process_note w) (n :: notes) st
  = ((process_note w n st).1, Raise e).
Proof.
  intros Hraise. cbn [for_each]. unfold bind.
  destruct (process_note w n st) as [st' r]. cbn in *. by subst r.
Qed.

Lemma for_each_cons_cases n notes st :
  ((process_note w n st).2 = Ok tt ∧
   for_each (process_note w) (n :: notes) st
   = for_each (process_note w) notes (process_note w n st).1) ∨
  (∃ e, (process_note w n st).2 = Raise e ∧
        for_each (process_note w) (n :: notes) st
        = ((process_note w n st).1, Raise e)).
Proof.
  destruct (process_note w n st).2 as [[]|e] eqn:Hres.
  - left. split; [done|]. by apply for_each_cons_ok.
  - right. exists e. split; [done|]. by apply for_each_cons_raise.
Qed.

(** The loop ends when a turn lets an exception out. *)
Lemma for_each_app notes1 notes2 st :
  for_each (process_note w) (notes1 ++ notes2) st
  = match (for_each (process_note w) notes1 st).2 with
    | Ok _ => for_each (process_note w) notes2
                (for_each (process_note w) notes1 st).1
    | Raise e => for_each (process_note w) notes1 st
    end.
Proof.
  revert st. induction notes1 as [|n notes1 IH]; intros st; [done|].
  cbn [app].
  destruct (for_each_cons_cases n (notes1 ++ notes2) st)
    as [[Hok ->]|(e & Hraise & ->)].
  - rewrite (for_each_cons_ok n notes1 st Hok). apply IH.
  - rewrite (for_each_cons_raise n notes1 st e Hraise). done.
Qed.

(** A property that every turn of the loop keeps holds when the loop is
    over or is left. *)
Lemma for_each_invariant (I : state → Prop) notes st :
  (∀ n st', n ∈ notes → I st' → I (process_note w n st').1) →
  I st → I (for_each (process_note w) notes st).1.
Proof.
  revert st. induction notes as [|n notes IH]; intros st Hturn Hst; [done|].
  destruct (for_each_cons_cases n notes st) as [[Hok ->]|(e & Hraise & ->)].
  - apply IH.
    + intros n' st' Hin. apply Hturn. by right.
    + apply Hturn; [by left|done].
  - apply Hturn; [by left|done].
Qed.

(** The same for a property that only the turns that return need to
    keep, when the loop runs to its end. *)
Lemma for_each_invariant_ok (I : state → Prop) notes st :
  (∀ n st', n ∈ notes → (process_note w n st').2 = Ok tt → I st' →
            I (process_note w n st').1) →
  (for_each (process_note w) notes st).2 = Ok tt →
  I st → I (for_each (process_note w) notes st).1.
Proof.
  revert st. induction notes as [|n notes IH]; intros st Hturn Hok Hst;
    [done|].
  destruct (for_each_cons_cases n notes st) as [[Hn Heq]|(e & Hraise & Heq)];
    rewrite Heq in Hok |- *; [|done].
  apply IH; [|done|].
  - intros n' st' Hin. apply Hturn. by right.
  - apply Hturn; [by left|done..].
Qed.

Lemma for_each_settled notes st :
  pending st = committed st →
  (for_each (process_note w) notes st).2 = Ok tt →
  pending (for_each (process_note w) notes st).1
  = committed (for_each (process_note w) notes st).1.
Proof.
  intros Hset Hok.
  apply (for_each_invariant_ok (λ s, pending s = committed s)); [|done..].
  intros n st' _ Hn _. eapply turn_settled.
  rewrite <-Hn. apply process_note_turn'.
Qed.

Lemma for_each_rows notes st :
  rows (for_each (process_note w) notes st).1 = rows st.
Proof.
  apply (for_each_invariant (λ s, rows s = rows st)); [|done].
  intros n st' _ <-. eapply turn_rows. apply process_note_turn'.
Qed.

(** *** The turns that are reached *)

Lemma reached_0 notes st : reached w notes st 0.
Proof. done. Qed.

Lemma reached_of_end notes st k :
  (for_each (process_note w) notes st).2 = Ok tt → reached w notes st k.
Proof.
  intros Hok. unfold reached.
  rewrite <-(take_drop k notes), for_each_app in Hok.
  destruct (for_each (process_note w) (take k notes) st).2 as [[]|e] eqn:Hk;
    [done|congruence].
Qed.

Lemma state_after_S notes st k n :
  reached w notes st k → notes !! k = Some n →
  state_after w notes st (S k) = (process_note w n (state_after w notes st k)).1.
Proof.
  intros Hreached Hk. unfold state_after, reached in *.
  rewrite (take_S_r _ _ _ Hk), for_each_app, Hreached.
  by destruct (for_each_cons_cases n [] (for_each (process_note w)
                                           (take k notes) st).1)
    as [[_ ->]|(e & _ & ->)].
Qed.

Lemma reached_S notes st k n :
  reached w notes st k → notes !! k = Some n →
  reached w notes st (S k) ↔
  (process_note w n (state_after w notes st k)).2 = Ok tt.
Proof.
  intros Hreached Hk. unfold state_after, reached in *.
  rewrite (take_S_r _ _ _ Hk), for_each_app, Hreached.
  destruct (for_each_cons_cases n [] (for_each (process_note w)
                                        (take k notes) st).1)
    as [[Hok ->]|(e & Hraise & ->)]; cbn; [done|].
  rewrite Hraise. done.
Qed.

Lemma reached_before notes st k n :
  reached w notes st (S k) → notes !! k = Some n →
  reached w notes st k ∧
  (process_note w n (state_after w notes st k)).2 = Ok tt.
Proof.
  intros Hreached Hk.
  assert (reached w notes st k) as Hk'.
  { unfold reached in *. rewrite (take_S_r _ _ _ Hk), for_each_app in Hreached.
    destruct (for_each (process_note w) (take k notes) st).2 as [[]|e] eqn:Hk';
      [done|congruence]. }
  split; [done|]. by apply (reached_S notes st k n Hk' Hk).
Qed.

Lemma state_after_all notes st k :
  (length notes ≤ k)%nat →
  state_after w notes st k = (for_each (process_note w) notes st).1.
Proof. intros Hk. unfold state_after. by rewrite take_ge. Qed.

Lemma for_each_from notes st k :
  reached w notes st k →
  for_each (process_note w) notes st
  = for_each (process_note w) (drop k notes) (state_after w notes st k).
Proof.
  intros Hreached. unfold state_after, reached in *.
  rewrite <-(take_drop k notes) at 1. by rewrite for_each_app, Hreached.
Qed.

Lemma state_after_settled notes st k :
  pending st = committed st → reached w notes st k →
  pending (state_after w notes st k) = committed (state_after w notes st k).
Proof. intros Hset Hreached. by apply for_each_settled. Qed.

(** *** When the handler cannot raise *)

Lemma process_note_ok n st :
  outside_calls_return w → (process_note w n st).2 = Ok tt.
Proof.
  intros Hout. destruct (process_note_turn' w n st) as [_ ->|st1 e _ Hhandled];
    [done|].
  destruct Hhandled as [e' Hprint _|e' _ Hroll _|]; [| |done].
  - by rewrite Hout in Hprint.
  - by rewrite Hout in Hroll.
Qed.

Lemma for_each_ok notes st :
  outside_calls_return w → (for_each (process_note w) notes st).2 = Ok tt.
Proof.
  intros Hout. revert st. induction notes as [|n notes IH]; intros st; [done|].
  rewrite (for_each_cons_ok n notes st (process_note_ok n st Hout)). apply IH.
Qed.

End loop_facts.

(** ** The whole script *)

Section script_facts.

Context (w : world).

Lemma script_without_key st :
  truthy (environ w !! "OPENAI_API_KEY") = false →
  script w st
  = (st, Raise (Exn "ValueError" "OPENAI_API_KEY environment variable is required")).
Proof. intros Hkey. unfold script. by rewrite Hkey. Qed.

Lemma script_with_key key st :
  environ w !! "OPENAI_API_KEY" = Some key → key ≠ "" →
  script w st
  = process_notes w (environ w !! "DATABASE_URL") (log (EvOpenAI key) st).
Proof.
  intros Hkey Hne. unfold script. rewrite Hkey.
  destruct key as [|c key]; [done|]. cbn. by py_unfold.
Qed.

Lemma truthy_key :
  truthy (environ w !! "OPENAI_API_KEY") = true →
  ∃ key, environ w !! "OPENAI_API_KEY" = Some key ∧ key ≠ "".
Proof.
  destruct (environ w !! "OPENAI_API_KEY") as [[|c key]|]; [done| |done].
  intros _. by eexists.
Qed.

Lemma process_notes_not_connected dsn e st :
  connect_error w dsn = Some e →
  process_notes w dsn st = (log (EvConnect dsn) st, Raise e).
Proof.
  intros Hcon. unfold process_notes, connect. py_unfold. by rewrite Hcon.
Qed.

Lemma stopped_after_closed st : stopped_after st 3 = closed st.
Proof. done. Qed.

(** The steps of [process_notes] from the state in which the client is
    built, one call at a time. *)
Lemma process_notes_ends key r st' :
  environ w !! "OPENAI_API_KEY" = Some key → key ≠ "" →
  process_notes w (environ w !! "DATABASE_URL") (client_built w key)
    = (st', r) →
  run_end w st' r.
Proof.
  intros Hkey Hne. unfold process_notes, connect. py_unfold.
  cbn [log trace committed pending rows client_built initial app].
  destruct (connect_error w _) as [e|] eqn:Hcon.
  { intros [= <- <-]. exact (end_connect w key e Hkey Hne Hcon). }
  destruct (call_error w _ EvCursor) as [e|] eqn:Hcur.
  { intros [= <- <-].
    exact (end_before w key 2 e Hkey Hne Hcon ltac:(lia)). }
  destruct (call_error w _ EvSelect) as [e|] eqn:Hsel.
  { intros [= <- <-].
    exact (end_before w key 3 e Hkey Hne Hcon ltac:(lia)). }
  cbn [log trace committed pending rows app].
  destruct (call_error w _ EvFetchall) as [e|] eqn:Hfetch.
  { intros [= <- <-].
    exact (end_before w key 4 e Hkey Hne Hcon ltac:(lia)). }
  cbn [log trace committed pending rows app].
  destruct (call_error w _ (EvPrint _)) as [e|] eqn:Hfound.
  { intros [= <- <-].
    exact (end_before w key 5 e Hkey Hne Hcon ltac:(lia)). }
  cbn [log trace committed pending rows app].
  change {| trace := _; committed := notes_table w; pending := _; rows := _ |}
    with (loop_start (environ w !! "DATABASE_URL") (client_built w key)).
  pose proof (end_after w key) as Hend.
  specialize (Hend) with (1 := Hkey) (2 := Hne) (3 := Hcon).
  destruct (for_each _ _ _) as [fin [[]|e]]; cbn [fst snd] in *.
  2: { intros [= <- <-].
       specialize (Hend 0%nat (Raise e) ltac:(lia) (conj eq_refl eq_refl)).
       replace (stopped_after fin 0) with fin in Hend; [done|].
       destruct fin. unfold stopped_after. cbn. by rewrite app_nil_r. }
  destruct (call_error w _ EvCursorClose) as [e|] eqn:Hcc.
  { intros [= <- <-].
    apply (Hend 1%nat (Raise e) ltac:(lia)). right. eauto. }
  cbn [log trace committed pending rows].
  destruct (call_error w _ EvConnClose) as [e|] eqn:Hco.
  { intros [= <- <-].
    specialize (Hend 2%nat (Raise e) ltac:(lia)).
    replace (log EvConnClose (log EvCursorClose fin))
      with (stopped_after fin 2); [apply Hend; right; eauto|].
    unfold stopped_after, log. cbn. by rewrite <-app_assoc. }
  cbn [log trace committed pending rows].
  replace (log (EvPrint MsgFinished) (log EvConnClose (log EvCursorClose fin)))
    with (stopped_after fin 3)
    by (unfold stopped_after, log; cbn; by rewrite <-!app_assoc).
  destruct (call_error w _ (EvPrint MsgFinished)) as [e|] eqn:Hfin.
  - intros [= <- <-]. apply (Hend 3%nat (Raise e) ltac:(lia)). right. eauto.
  - intros [= <- <-]. apply (Hend 3%nat (Ok tt) ltac:(lia)). by left.
Qed.

(** A run ends in one of the ways of [run_end]. *)
Lemma run_ends : run_end w (run w).1 (run w).2.
Proof.
  unfold run.
  destruct (truthy (environ w !! "OPENAI_API_KEY")) eqn:Htruthy.
  - destruct (truthy_key Htruthy) as (key & Hkey & Hne).
    rewrite (script_with_key key) by done. fold (client_built w key).
    apply (process_notes_ends key); [done..|].
    by destruct (process_notes w _ _).
  - rewrite script_without_key by done. by apply end_no_key.
Qed.

End script_facts.

(** ** How runs end *)

Section run_facts.

Context (w : world).

Lemma run_end_inv :
  ∀ st r, run_end w st r →
    st = initial w ∨
    (∃ key j, (1 ≤ j ≤ 5)%nat ∧ st = stopped_before w key j) ∨
    (∃ key k,
       environ w !! "OPENAI_API_KEY" = Some key ∧ key ≠ "" ∧
       connect_error w (environ w !! "DATABASE_URL") = None ∧
       (k ≤ 3)%nat ∧
       st = stopped_after
              (for_each (process_note w) (select_unembedded (notes_table w))
                 (loop_start (environ w !! "DATABASE_URL")
                    (client_built w key))).1 k).
Proof.
  intros st r [?|key e ? ? ?|key j e ? ? ? ?|key k r' ? ? ? ? ?].
  - by left.
  - right. left. exists key, 1%nat. split; [lia|done].
  - right. left. exists key, j. split; [lia|done].
  - right. right. by exists key, k.
Qed.

(** A property of the state that holds before the loop and that no turn
    of the loop and no call after the loop breaks holds when the script
    ends, whichever way it ends. *)
Lemma run_invariant (I : state → Prop) :
  I (initial w) →
  (∀ key j, I (stopped_before w key j)) →
  (∀ key, I (loop_start (environ w !! "DATABASE_URL") (client_built w key))) →
  (∀ n st, n ∈ select_unembedded (notes_table w) → I st →
           I (process_note w n st).1) →
  (∀ st k, I st → I (stopped_after st k)) →
  I (run w).1.
Proof.
  intros Hinit Hbefore Hstart Hturn Hafter.
  destruct (run_end_inv _ _ (run_ends w))
    as [->|[(key & j & _ & ->)|(key & k & _ & _ & _ & _ & ->)]]; [done..|].
  apply Hafter, for_each_invariant; [|done].
  intros n st' Hn. by apply Hturn.
Qed.

(** The same when the property only speaks of the two tables. *)
Lemma run_invariant_tables (I : table → table → Prop) :
  I (notes_table w) (notes_table w) →
  (∀ n st, n ∈ select_unembedded (notes_table w) →
           I (committed st) (pending st) →
           I (committed (process_note w n st).1)
             (pending (process_note w n st).1)) →
  I (committed (run w).1) (pending (run w).1).
Proof.
  intros Hinit Hturn.
  by apply (run_invariant (λ st, I (committed st) (pending st))).
Qed.

(** A run that ends normally went through the loop to its end and made
    the three calls that follow it. *)
Lemma run_ok_inv :
  (run w).2 = Ok tt →
  ∃ key,
    connected w key (environ w !! "DATABASE_URL") ∧
    (for_each (process_note w) (select_unembedded (notes_table w))
       (loop_start (environ w !! "DATABASE_URL") (client_built w key))).2
      = Ok tt ∧
    (run w).1
    = closed (for_each (process_note w) (select_unembedded (notes_table w))
                (loop_start (environ w !! "DATABASE_URL")
                   (client_built w key))).1.
Proof.
  intros Hok. pose proof (run_ends w) as Hend. rewrite Hok in Hend.
  inversion Hend as [| | |key k r' Hkey Hne Hcon Hk Hloop Hst].
  exists key. split; [done|].
  destruct (for_each _ _ _).2 as [[]|e].
  - destruct Hloop as [[-> _]|(_ & e & ?)]; [|done]. by split.
  - by destruct Hloop as [_ ?].
Qed.

(** When the connection opens and no call outside the [try] body
    raises, the run goes through the loop and ends normally. *)
Lemma run_connected key dsn :
  connected w key dsn → outside_calls_return w →
  run w
  = (closed (for_each (process_note w) (select_unembedded (notes_table w))
               (loop_start dsn (client_built w key))).1, Ok tt).
Proof.
  intros (Hkey & Hne & <- & Hcon) Hout. unfold run.
  rewrite (script_with_key w key) by done. fold (client_built w key).
  unfold process_notes, connect. py_unfold. rewrite Hcon.
  cbn [log trace committed pending rows client_built initial app].
  rewrite (Hout _ EvCursor) by done.
  rewrite (Hout _ EvSelect) by done.
  cbn [log trace committed pending rows app].
  rewrite (Hout _ EvFetchall) by done.
  cbn [log trace committed pending rows app].
  rewrite (Hout _ (EvPrint (MsgFound _))) by done.
  cbn [log trace committed pending rows app].
  change {| trace := _; committed := notes_table w; pending := _; rows := _ |}
    with (loop_start (environ w !! "DATABASE_URL") (client_built w key)).
  pose proof (for_each_ok w (select_unembedded (notes_table w))
                (loop_start (environ w !! "DATABASE_URL") (client_built w key))
                Hout) as Hok.
  destruct (for_each _ _ _) as [fin r]. cbn [fst snd] in *. subst r.
  rewrite (Hout _ EvCursorClose) by done.
  cbn [log trace committed pending rows].
  rewrite (Hout _ EvConnClose) by done.
  cbn [log trace committed pending rows].
  rewrite (Hout _ (EvPrint MsgFinished)) by done.
  unfold closed, log. cbn. by rewrite <-!app_assoc.
Qed.

End run_facts.

(** ** The table *)

Section table_facts.

Implicit Types (t : table) (r : note).

Lemma unique_ids_same_row t p p' r r' :
  unique_ids t → t !! p = Some r → t !! p' = Some r' →
  note_id r = note_id r' → p = p' ∧ r = r'.
Proof.
  intros Huniq Hp Hp' Hid.
  assert (p = p') as <-.
  { unfold unique_ids in Huniq.
    apply (NoDup_lookup (note_id <$> t) p p' (note_id r) Huniq).
    - rewrite list_lookup_fmap. by rewrite Hp.
    - rewrite list_lookup_fmap. by rewrite Hp', Hid. }
  split; [done|]. congruence.
Qed.

Lemma elem_of_select t c :
  c ∈ select_unembedded t ↔ ∃ r, r ∈ t ∧ embedding r = None ∧ columns r = c.
Proof.
  unfold select_unembedded. rewrite list_elem_of_fmap. split.
  - intros (r & -> & Hr). apply list_elem_of_filter in Hr as [Hnull Hr].
    by exists r.
  - intros (r & Hr & Hnull & <-). exists r. split; [done|].
    by apply list_elem_of_filter.
Qed.

Lemma select_iff_null t r :
  unique_ids t → r ∈ t →
  columns r ∈ select_unembedded t ↔ embedding r = None.
Proof.
  intros Huniq Hr. rewrite elem_of_select. split.
  - intros (r' & Hr' & Hnull & Hcol).
    apply list_elem_of_lookup in Hr as [p Hp].
    apply list_elem_of_lookup in Hr' as [p' Hp'].
    assert (note_id r' = note_id r) as Hid by (unfold columns in Hcol; congruence).
    destruct (unique_ids_same_row t p' p r' r Huniq Hp' Hp Hid) as [_ <-].
    done.
  - intros Hnull. by exists r.
Qed.

Lemma select_avoids_embedded t c r :
  unique_ids t → c ∈ select_unembedded t → r ∈ t → embedding r ≠ None →
  note_id r ≠ c.1.1.
Proof.
  intros Huniq Hc Hr Hemb Hid.
  apply elem_of_select in Hc as (r' & Hr' & Hnull & <-). cbn in Hid.
  apply list_elem_of_lookup in Hr as [p Hp].
  apply list_elem_of_lookup in Hr' as [p' Hp'].
  destruct (unique_ids_same_row t p p' r r' Huniq Hp Hp' Hid) as [_ ->].
  done.
Qed.

Lemma update_embedding_lookup v now i t p :
  update_embedding v now i t !! p
  = (λ r, if decide (note_id r = i) then set_embedding v now r else r) <$> t !! p.
Proof. unfold update_embedding. apply list_lookup_fmap. Qed.

Lemma update_embedding_other v now i t p r :
  t !! p = Some r → note_id r ≠ i → update_embedding v now i t !! p = Some r.
Proof.
  intros Hp Hne. rewrite update_embedding_lookup, Hp. cbn.
  by rewrite decide_False.
Qed.

Lemma update_embedding_same v now i t p r :
  t !! p = Some r → note_id r = i →
  update_embedding v now i t !! p = Some (set_embedding v now r).
Proof.
  intros Hp Heq. rewrite update_embedding_lookup, Hp. cbn.
  by rewrite decide_True.
Qed.

Lemma update_embedding_ids v now i t :
  note_id <$> update_embedding v now i t = note_id <$> t.
Proof.
  unfold update_embedding. rewrite <-list_fmap_compose.
  apply list_fmap_ext. intros _ r _. cbn. by case_decide.
Qed.

Lemma untouched_or_paired_set v now r0 r :
  untouched_or_paired r0 r → untouched_or_paired r0 (set_embedding v now r).
Proof. intros [->|(v' & now' & ->)]; right; by exists v, now. Qed.

End table_facts.

(** ** What a turn keeps *)

Section frame_facts.

Context (w : world).

Implicit Types (st : state) (n : candidate) (P : note → Prop) (t : table).

Lemma update_embedding_columns v now i t :
  columns <$> update_embedding v now i t = columns <$> t.
Proof.
  unfold update_embedding. rewrite <-list_fmap_compose.
  apply list_fmap_ext. intros _ r _. cbn. by case_decide.
Qed.

Lemma update_embedding_paired v now i t p r0 r :
  t !! p = Some r → untouched_or_paired r0 r →
  ∃ r', update_embedding v now i t !! p = Some r' ∧ untouched_or_paired r0 r'.
Proof.
  intros Hp Hr. destruct (decide (note_id r = i)) as [Heq|Hne].
  - exists (set_embedding v now r).
    split; [by apply update_embedding_same|by apply untouched_or_paired_set].
  - exists r. split; [by apply update_embedding_other|done].
Qed.

Lemma turn_kept P t0 id title content st st' r :
  turn w id title content st st' r →
  (∀ r0, r0 ∈ t0 → P r0 → note_id r0 ≠ id) →
  kept P t0 st → kept P t0 st'.
Proof.
  intros Hturn Hother Hkept p r0 Hp HP.
  destruct (Hkept p r0 Hp HP) as [Hc Hpe].
  assert (note_id r0 ≠ id) as Hne.
  { apply Hother; [|done]. apply list_elem_of_lookup. by exists p. }
  destruct (turn_tables w _ _ _ _ _ _ Hturn) as [Hc' Hp'].
  assert (committed st' !! p = Some r0) as Hrow.
  { destruct Hc' as [->|(v & now & ->)]; [done|].
    by apply update_embedding_other. }
  split; [done|].
  destruct Hp' as [->|[->|(v & now & ->)]]; [done..|].
  by apply update_embedding_other.
Qed.

Lemma turn_paired t0 id title content st st' r :
  turn w id title content st st' r → paired t0 st → paired t0 st'.
Proof.
  intros Hturn Hpaired p r0 Hp.
  destruct (Hpaired p r0 Hp) as (rc & rp & Hc & Hpe & Hrc & Hrp).
  destruct (turn_tables w _ _ _ _ _ _ Hturn) as [Hc' Hp'].
  assert (∃ rc', committed st' !! p = Some rc' ∧ untouched_or_paired r0 rc')
    as (rc' & Hrow & Hrc').
  { destruct Hc' as [->|(v & now & ->)]; [by exists rc|].
    by apply (update_embedding_paired v now id _ p r0 rp). }
  exists rc'.
  destruct Hp' as [->|[->|(v & now & ->)]].
  - by exists rp.
  - by exists rc'.
  - destruct (update_embedding_paired v now id _ p r0 rp Hpe Hrp)
      as (rp' & ? & ?).
    by exists rp'.
Qed.

Lemma turn_columns (c : list candidate) id title content st st' r :
  turn w id title content st st' r →
  columns <$> committed st = c ∧ columns <$> pending st = c →
  columns <$> committed st' = c ∧ columns <$> pending st' = c.
Proof.
  intros Hturn [Hc Hp].
  destruct (turn_tables w _ _ _ _ _ _ Hturn) as [Hc' Hp'].
  assert (columns <$> committed st' = c) as Hrow.
  { destruct Hc' as [->|(v & now & ->)]; [done|].
    by rewrite update_embedding_columns. }
  split; [done|].
  destruct Hp' as [->|[->|(v & now & ->)]]; [done..|].
  by rewrite update_embedding_columns.
Qed.

Lemma for_each_kept P t0 notes st :
  (∀ n r, n ∈ notes → r ∈ t0 → P r → note_id r ≠ n.1.1) →
  kept P t0 st → kept P t0 (for_each (process_note w) notes st).1.
Proof.
  intros Hother. apply for_each_invariant. intros n st' Hn.
  eapply turn_kept; [apply process_note_turn'|]. intros r. by apply Hother.
Qed.

Lemma for_each_paired t0 notes st :
  paired t0 st → paired t0 (for_each (process_note w) notes st).1.
Proof.
  apply for_each_invariant. intros n st' _.
  eapply turn_paired. apply process_note_turn'.
Qed.

Lemma for_each_columns notes st :
  pending st = committed st →
  columns <$> committed (for_each (process_note w) notes st).1
  = columns <$> committed st.
Proof.
  intros Hset.
  assert (columns <$> committed (for_each (process_note w) notes st).1
            = columns <$> committed st ∧
          columns <$> pending (for_each (process_note w) notes st).1
            = columns <$> committed st) as [Hc _]; [|done].
  apply (for_each_invariant w
           (λ s, columns <$> committed s = columns <$> committed st ∧
                 columns <$> pending s = columns <$> committed st)).
  - intros n st' _. eapply turn_columns. apply process_note_turn'.
  - by rewrite Hset.
Qed.

Lemma kept_start P st : pending st = committed st → kept P (committed st) st.
Proof. intros Hset p r Hp _. by rewrite Hset. Qed.

Lemma paired_start st : pending st = committed st → paired (committed st) st.
Proof.
  intros Hset p r Hp. exists r, r. rewrite Hset. split_and!; by try left.
Qed.

(** *** The calls of a turn *)

Lemma tried_trace id title content st st1 r :
  tried w id title content st st1 r →
  ∃ evs, trace st1 = trace st ++ request title content :: evs ∧
         Forall (follows_request w id title content (trace st)) evs.
Proof.
  intros [e ? (-> & _)|v e ? ? (-> & _)|v e ? ? ? (-> & _)
         |v e ? ? ? ? (-> & _)|v ? ? ? ? (-> & _)];
    eexists; (split; [done|]); repeat constructor; done.
Qed.

Lemma handled_trace id title content tr e st1 st' r :
  handled w id e st1 st' r →
  ∃ evs, trace st' = trace st1 ++ evs ∧
         Forall (follows_request w id title content tr) evs.
Proof.
  intros [e' ? (-> & _)|e' ? ? (-> & _)|? ? (-> & _)];
    eexists; (split; [done|]); repeat constructor; done.
Qed.

(** A turn starts with its request.  What it calls afterwards is an
    UPDATE addressed to its note that carries the answer to the request,
    a commit, a rollback, or a [print] about its note. *)
Lemma turn_trace id title content st st' r :
  turn w id title content st st' r →
  ∃ evs, trace st' = trace st ++ request title content :: evs ∧
         Forall (follows_request w id title content (trace st)) evs.
Proof.
  intros [Htried _|st1 e Htried Hhandled].
  - by apply tried_trace in Htried.
  - apply tried_trace in Htried as (evs1 & Htr1 & Hevs1).
    apply (handled_trace id title content (trace st)) in Hhandled
      as (evs2 & -> & Hevs2).
    exists (evs1 ++ evs2). rewrite Htr1, <-app_assoc. split; [done|].
    by apply Forall_app.
Qed.

Lemma follows_request_quiet id title content tr ev :
  follows_request w id title content tr ev → provider_call ev = false.
Proof. by destruct ev. Qed.

Lemma turn_updates_within (ids : Z → Prop) id title content st st' r :
  turn w id title content st st' r → ids id →
  updates_within ids st → updates_within ids st'.
Proof.
  intros Hturn Hid Hst v i Hin.
  destruct (turn_trace _ _ _ _ _ _ Hturn) as (evs & Htr & Hevs).
  rewrite Htr in Hin. apply elem_of_app in Hin as [Hin|Hin]; [by eapply Hst|].
  apply elem_of_cons in Hin as [?|Hin]; [done|].
  rewrite Forall_forall in Hevs. by destruct (Hevs _ Hin) as [-> _].
Qed.

Lemma for_each_updates_within (ids : Z → Prop) notes st :
  (∀ n, n ∈ notes → ids n.1.1) →
  updates_within ids st →
  updates_within ids (for_each (process_note w) notes st).1.
Proof.
  intros Hids. apply for_each_invariant. intros n st' Hn.
  eapply turn_updates_within; [apply process_note_turn'|]. by apply Hids.
Qed.

Lemma loop_start_kept P dsn st :
  pending st = committed st → kept P (committed st) (loop_start dsn st).
Proof. intros Hset p r Hp _. cbn. by rewrite Hset. Qed.

End frame_facts.

(** ** The request text *)

(** C1: the text handed to the embedding step is the first 8000
    characters of title, blank line, content.  Its length is
    [min(len(title) + 2 + len(content), 8000)], so at most 8000; the
    replacement of newlines keeps that length, and the request built from
    this text is the first call of the note's turn.  ([to_str] is the
    identity on a text; it only matters for a NULL column.) *)
Theorem request_text_truncation (w : world) (id : Z) (title content : option str)
    (st : state) :
  let text := truncated_text title content in
  text = take (Z.to_nat 8000)
           (to_str title ++ [newline; newline] ++ to_str content) ∧
  len text = Z.min (len (to_str title) + 2 + len (to_str content)) 8000 ∧
  (∀ t c : str, title = Some t → content = Some c →
     len text = Z.min (len t + 2 + len c) 8000) ∧
  len text ≤ 8000 ∧
  len (provider_input title content) = len text ∧
  ∃ rest,
    trace (process_note w (id, title, content) st).1
    = trace st ++
        EvEmbeddingsCreate [replace newline space text] default_model :: rest.
Proof.
  cbn zeta. pose proof (len_truncated_text title content) as Hlen.
  split_and!.
  - unfold truncated_text, slice_to. by rewrite decide_True by lia.
  - done.
  - intros t c -> ->. exact Hlen.
  - lia.
  - apply len_replace.
  - destruct (turn_trace w _ _ _ _ _ _ (process_note_turn w id title content st))
      as (rest & Htr & _).
    by exists rest.
Qed.

Lemma request_text_truncation_witness :
  len (truncated_text (Some Sample.long_title) (Some (lit "tail"))) = 8000.
Proof.
  exact (proj1 (proj2 (proj2
    (request_text_truncation Sample.w 1 (Some Sample.long_title)
       (Some (lit "tail")) (initial Sample.w))))
    Sample.long_title (lit "tail") eq_refl eq_refl).
Defined.

(** ** What the provider receives *)

Section trace_facts.

Context (w : world).

Lemma request_without_newline title content :
  sent_without_newline (request title content).
Proof.
  cbn. constructor; [|constructor]. by apply replace_removes.
Qed.

Lemma quiet_without_newline ev : provider_call ev = false → sent_without_newline ev.
Proof. by destruct ev. Qed.

Lemma process_note_without_newline n st :
  Forall sent_without_newline (trace st) →
  Forall sent_without_newline (trace (process_note w n st).1).
Proof.
  intros Hst. destruct (turn_trace w _ _ _ _ _ _ (process_note_turn' w n st))
    as (evs & -> & Hevs).
  apply Forall_app. split; [done|]. constructor.
  - apply request_without_newline.
  - eapply Forall_impl; [exact Hevs|]. intros ev Hev.
    by eapply quiet_without_newline, follows_request_quiet.
Qed.

Lemma prelude_quiet dsn t j :
  Forall (λ ev, provider_call ev = false ∧ write_call ev = false)
    (take j (prelude_calls dsn t)).
Proof. apply Forall_take. by repeat constructor. Qed.

Lemma closing_quiet k :
  Forall (λ ev, provider_call ev = false ∧ write_call ev = false)
    (take k closing_calls).
Proof. apply Forall_take. by repeat constructor. Qed.

End trace_facts.

(** C5: [get_embedding] sends the text with every newline replaced by one
    space, character by character, and nothing else changed; the text it
    sends holds no newline.  Hence no request in the trace of a run of
    the script, whatever the world, carries a newline. *)
Theorem provider_input_no_newline (w : world) :
  (∀ (text : str) (model : string) (st : state),
     let sent := replace newline space text in
     trace (get_embedding w text model st).1
       = trace st ++ [EvEmbeddingsCreate [sent] model] ∧
     (newline ∉ sent) ∧
     length sent = length text ∧
     (∀ i, sent !! i
           = (λ c, if decide (c = newline) then space else c) <$> text !! i)) ∧
  Forall sent_without_newline (trace (run w).1).
Proof.
  split.
  - intros text model st. cbn zeta. split_and!.
    + unfold get_embedding, embeddings_create_call.
      by destruct (embeddings_create _ _ _ _).
    + by apply replace_removes.
    + unfold replace. apply length_fmap.
    + intros i. apply replace_lookup.
  - apply (run_invariant w (λ st, Forall sent_without_newline (trace st))).
    + constructor.
    + intros key j. cbn. constructor; [done|].
      eapply Forall_impl; [apply prelude_quiet|].
      intros ev [Hev _]. by apply quiet_without_newline.
    + intros key. cbn. by repeat constructor.
    + intros n st _. apply process_note_without_newline.
    + intros st k Hst. cbn. apply Forall_app. split; [done|].
      eapply Forall_impl; [apply closing_quiet|].
      intros ev [Hev _]. by apply quiet_without_newline.
Qed.

(** ** NULL columns *)

Lemma long_title_plain : ∀ c, c ∈ Sample.long_title → c = 97%N.
Proof. intros c Hc. by apply elem_of_replicate_inv in Hc. Qed.

Lemma long_title_truncated :
  truncated_text (Some Sample.long_title) None = Sample.long_title.
Proof.
  unfold truncated_text, full_text, slice_to. rewrite decide_True by lia.
  apply take_app_length'. unfold Sample.long_title. by rewrite length_replicate.
Qed.

(** C9, as stated, fails: with a title of 8000 characters and a NULL
    content the request text is the title alone.  It does not end in
    "None", and "None" occurs nowhere in what the provider receives. *)
Lemma null_content_cut_off :
  truncated_text (Some Sample.long_title) None = Sample.long_title ∧
  ¬ ends_with (truncated_text (Some Sample.long_title) None) (lit "None") ∧
  ¬ contains (provider_input (Some Sample.long_title) None) (lit "None").
Proof.
  split_and!.
  - apply long_title_truncated.
  - rewrite long_title_truncated. intros [k Hk].
    assert (78%N ∈ Sample.long_title) as Hin.
    { rewrite Hk. apply elem_of_app. right. by left. }
    by apply long_title_plain in Hin.
  - unfold provider_input. rewrite long_title_truncated.
    rewrite replace_absent.
    + intros (a & b & Hab).
      assert (78%N ∈ Sample.long_title) as Hin.
      { rewrite Hab. apply elem_of_app. right. by left. }
      by apply long_title_plain in Hin.
    + intros Hin. by apply long_title_plain in Hin.
Qed.

(** C9, amended: a NULL title or content does not make the turn fail.
    The NULL is rendered as "None" in the text title, blank line, content
    of which the request text is the first 8000 characters: a NULL title
    always gives a request text that starts with "None", a NULL content
    gives one that ends in "None" when title, blank line and "None" fit
    in 8000 characters.  The turn then goes as for any other note: it is
    one of the turns of [turn], it returns when no call outside the
    [try] body raises, and an exception that leaves it was raised by
    such a call. *)
Theorem null_column_rendering (w : world) (id : Z) (title content : option str)
    (st : state) :
  full_text None content = lit "None" ++ [newline; newline] ++ to_str content ∧
  full_text title None = to_str title ++ [newline; newline] ++ lit "None" ∧
  lit "None" `prefix_of` truncated_text None content ∧
  (len (to_str title) + 6 ≤ 8000 →
   truncated_text title None = to_str title ++ [newline; newline] ++ lit "None" ∧
   ends_with (truncated_text title None) (lit "None")) ∧
  turn w id title content st (process_note w (id, title, content) st).1
    (process_note w (id, title, content) st).2 ∧
  (outside_calls_return w →
   (process_note w (id, title, content) st).2 = Ok tt) ∧
  (∀ e, (process_note w (id, title, content) st).2 = Raise e →
        ∃ tr ev, outside_try ev = true ∧ call_error w tr ev = Some e).
Proof.
  split_and!.
  - done.
  - done.
  - unfold truncated_text, full_text. cbn [to_str].
    apply slice_to_app_l. by vm_compute.
  - intros Hfit.
    assert (truncated_text title None
            = to_str title ++ [newline; newline] ++ lit "None") as ->.
    { unfold truncated_text. apply slice_to_fits.
      rewrite !len_app. change (len [newline; newline]) with 2.
      change (len (lit "None")) with 4. lia. }
    split; [done|].
    exists (to_str title ++ [newline; newline]). by rewrite <-app_assoc.
  - apply process_note_turn.
  - intros Hout. by apply process_note_ok.
  - intros e Hraise.
    destruct (process_note_turn w id title content st)
      as [_ Hr|st1 e0 _ Hhandled]; [congruence|].
    rewrite Hraise in Hhandled.
    inversion Hhandled as [e' Hprint|e' _ Hroll|]; subst.
    + by exists (trace st1), (EvPrint (MsgError id e0)).
    + by exists (trace st1 ++ [EvPrint (MsgError id e0)]), EvRollback.
Qed.

Lemma null_column_rendering_witness :
  len (to_str (Some (lit "t"))) + 6 ≤ 8000 ∧
  ends_with (truncated_text (Some (lit "t")) None) (lit "None").
Proof.
  split; [by vm_compute|].
  apply (proj1 (proj2 (proj2 (proj2
    (null_column_rendering Sample.w 3 (Some (lit "t")) None
       (initial Sample.w)))))).
  by vm_compute.
Defined.

(** ** Configuration *)

Section dotenv_facts.

Implicit Types (env : gmap string string) (file : list (string * string)).

Lemma load_dotenv_union file env :
  load_dotenv file env = env ∪ list_to_map file.
Proof.
  unfold load_dotenv. revert env.
  induction file as [|[k v] file IH]; intros env; cbn [foldl list_to_map].
  { rewrite list_to_map_nil. by rewrite (right_id_L ∅ (∪)). }
  rewrite IH. cbn [fst snd]. rewrite list_to_map_cons.
  destruct (env !! k) as [x|] eqn:Hk.
  - apply map_eq. intros k'. rewrite !lookup_union.
    destruct (decide (k = k')) as [<-|Hne].
    + rewrite Hk, lookup_insert_eq. by destruct (list_to_map file !! k).
    + by rewrite lookup_insert_ne.
  - rewrite <-insert_union_l. by rewrite insert_union_r.
Qed.

Lemma load_dotenv_keeps file env k v :
  env !! k = Some v → load_dotenv file env !! k = Some v.
Proof.
  intros Hk. rewrite load_dotenv_union. by apply lookup_union_Some_l.
Qed.

Lemma load_dotenv_fills file env k :
  env !! k = None →
  load_dotenv file env !! k = (list_to_map file : gmap string string) !! k.
Proof.
  intros Hk. rewrite load_dotenv_union. by apply lookup_union_r.
Qed.

End dotenv_facts.

(** C8: loading [.env.local] never replaces a variable of the process
    environment.  A variable that is set there keeps its value in the
    environment the script reads, whatever the file binds it to; the file
    only supplies the variables the process environment lacks. *)
Theorem dotenv_non_destructive (w : world) :
  (∀ k v, process_env w !! k = Some v → environ w !! k = Some v) ∧
  (∀ k, process_env w !! k = None →
        environ w !! k = (list_to_map (env_file w) : gmap string string) !! k).
Proof.
  split.
  - intros k v Hk. by apply load_dotenv_keeps.
  - intros k Hk. by apply load_dotenv_fills.
Qed.

Lemma dotenv_non_destructive_witness :
  (list_to_map (env_file Sample.w) : gmap string string) !! "OPENAI_API_KEY"
    = Some "sk-file" ∧
  process_env Sample.w !! "OPENAI_API_KEY" = Some "sk-test" ∧
  environ Sample.w !! "OPENAI_API_KEY" = Some "sk-test" ∧
  process_env Sample.w !! "LOG_LEVEL" = None ∧
  environ Sample.w !! "LOG_LEVEL" = Some "debug".
Proof.
  split_and!.
  - by vm_compute.
  - by vm_compute.
  - apply (proj1 (dotenv_non_destructive Sample.w)). by vm_compute.
  - by vm_compute.
  - rewrite (proj2 (dotenv_non_destructive Sample.w)); by vm_compute.
Defined.

(** ** Fatal paths and the exit status *)

(** C6: when the environment the script reads has no [OPENAI_API_KEY],
    the script raises the [ValueError] with its message at once.  Nothing
    has been called by then: the trace is empty, so it holds no datastore
    call and no provider call, and the tables are as they were. *)
Theorem missing_key_fatal (w : world) :
  environ w !! "OPENAI_API_KEY" = None →
  (run w).2
    = Raise (Exn "ValueError" "OPENAI_API_KEY environment variable is required") ∧
  trace (run w).1 = [] ∧
  Forall (λ ev, datastore_call ev = false ∧ provider_call ev = false)
    (trace (run w).1) ∧
  committed (run w).1 = notes_table w ∧
  pending (run w).1 = notes_table w.
Proof.
  intros Hkey. unfold run. rewrite script_without_key by (by rewrite Hkey).
  cbn. split_and!; by try constructor.
Qed.

Lemma missing_key_fatal_witness :
  environ Sample.w_no_key !! "OPENAI_API_KEY" = None ∧
  trace (run Sample.w_no_key).1 = [].
Proof.
  split; [by vm_compute|].
  apply (missing_key_fatal Sample.w_no_key). by vm_compute.
Defined.

(** C10: with a usable credential, when [psycopg2.connect] raises on what
    [DATABASE_URL] holds (nothing, or a string the datastore refuses),
    [process_notes] and then the script end with that exception.  The
    trace is the client construction and the connection attempt and
    nothing else: no SELECT, no turn of the loop, no handler, no
    [close].  The exit status is 1. *)
Theorem connect_failure_escapes (w : world) (key : string) (e : exn) :
  environ w !! "OPENAI_API_KEY" = Some key → key ≠ "" →
  connect_error w (environ w !! "DATABASE_URL") = Some e →
  process_notes w (environ w !! "DATABASE_URL") (client_built w key)
    = (log (EvConnect (environ w !! "DATABASE_URL")) (client_built w key),
       Raise e) ∧
  (run w).2 = Raise e ∧
  trace (run w).1 = [EvOpenAI key; EvConnect (environ w !! "DATABASE_URL")] ∧
  rows (run w).1 = [] ∧
  committed (run w).1 = notes_table w ∧
  (EvSelect ∉ trace (run w).1) ∧
  (EvRollback ∉ trace (run w).1) ∧
  (EvConnClose ∉ trace (run w).1) ∧
  (∀ m, EvPrint m ∉ trace (run w).1) ∧
  exit_status (run w).2 = 1.
Proof.
  intros Hkey Hne Hcon.
  pose proof (process_notes_not_connected w _ e (client_built w key) Hcon)
    as Hpn.
  split; [exact Hpn|].
  unfold run. rewrite (script_with_key w key) by done.
  fold (client_built w key). rewrite Hpn. cbn.
  split_and!; try done; intros; rewrite !not_elem_of_cons;
    split_and!; try done; apply not_elem_of_nil.
Qed.

Lemma connect_failure_escapes_witness :
  (run Cases.w_refused).2 = Raise Cases.refused ∧
  exit_status (run Cases.w_refused).2 = 1.
Proof.
  pose proof (connect_failure_escapes Cases.w_refused Cases.key Cases.refused)
    as H.
  destruct H as (_ & Hrun & _ & _ & _ & _ & _ & _ & _ & Hexit);
    [by vm_compute|done|by vm_compute|].
  by split.
Defined.

(** C7, as stated, fails: in [Cases.w_refused] the credential is set, the
    connection string is set and no note fails, yet the script does not
    run to normal completion.  The datastore refuses the connection, the
    exception is not caught and the exit status is 1. *)
Lemma exit_failure_with_credential :
  environ Cases.w_refused !! "OPENAI_API_KEY" = Some "sk-test" ∧
  environ Cases.w_refused !! "DATABASE_URL"
    = Some "postgresql://localhost/notes" ∧
  (run Cases.w_refused).2 = Raise Cases.refused ∧
  exit_status (run Cases.w_refused).2 = 1.
Proof. by vm_compute. Qed.

(** C7, amended: the exit status is 1 when the credential is missing
    (unset, or set to the empty string).  With a credential, when the
    connection opens and no call outside the [try] body raises (the
    calls before and after the loop, and the [print] and the [rollback]
    of the handler), the script runs to normal completion whatever the
    embedding requests, the UPDATEs, the commits and the messages that a
    note was processed do: the world [w], and with it every oracle, is
    otherwise arbitrary.  The last calls of the trace are the two
    [close] calls and the final message. *)
Theorem exit_status_by_configuration (w : world) :
  (truthy (environ w !! "OPENAI_API_KEY") = false →
   (run w).2
     = Raise (Exn "ValueError" "OPENAI_API_KEY environment variable is required") ∧
   exit_status (run w).2 = 1) ∧
  (∀ key dsn,
     connected w key dsn → outside_calls_return w →
     (run w).2 = Ok tt ∧
     exit_status (run w).2 = 0 ∧
     ∃ tr, trace (run w).1
           = tr ++ [EvCursorClose; EvConnClose; EvPrint MsgFinished]).
Proof.
  split.
  - intros Hkey. unfold run. by rewrite script_without_key.
  - intros key dsn Hcon Hout. rewrite (run_connected w key dsn Hcon Hout).
    cbn. split_and!; [done..|]. by eexists.
Qed.

Lemma sample_connected : connected Sample.w Cases.key Cases.dsn.
Proof. split_and!; by vm_compute. Qed.

Lemma sample_outside_calls_return : outside_calls_return Sample.w.
Proof. by intros tr ev _. Qed.

Lemma unprintable_connected : connected Cases.w_unprintable Cases.key Cases.dsn.
Proof. split_and!; by vm_compute. Qed.

Lemma unprintable_outside_calls_return :
  outside_calls_return Cases.w_unprintable.
Proof. intros tr [] Hev; try done. by destruct m. Qed.

Lemma exit_status_by_configuration_witness :
  exit_status (run Sample.w_no_key).2 = 1 ∧
  printed (trace (run Sample.w).1)
    = [MsgFound 2; MsgError 1 Sample.boom; MsgProcessed 2 None; MsgFinished] ∧
  exit_status (run Sample.w).2 = 0 ∧
  exit_status (run Cases.w_unprintable).2 = 0.
Proof.
  split_and!.
  - apply (proj1 (exit_status_by_configuration Sample.w_no_key)).
    by vm_compute.
  - by vm_compute.
  - apply (proj2 (exit_status_by_configuration Sample.w) Cases.key Cases.dsn
             sample_connected sample_outside_calls_return).
  - apply (proj2 (exit_status_by_configuration Cases.w_unprintable)
             Cases.key Cases.dsn unprintable_connected
             unprintable_outside_calls_return).
Defined.

(** ** The requests of a run *)

Section request_facts.

Context (w : world).

Implicit Types (st : state) (notes : list candidate) (n : candidate).

Lemma requests_quiet evs :
  Forall (λ ev, provider_call ev = false) evs → requests evs = [].
Proof.
  unfold requests. induction 1 as [|ev evs Hev _ IH]; [done|].
  rewrite filter_cons_False; [done|]. by rewrite Hev.
Qed.

Lemma requests_app evs1 evs2 :
  requests (evs1 ++ evs2) = requests evs1 ++ requests evs2.
Proof. unfold requests. apply filter_app. Qed.

Lemma turn_requests id title content st st' r :
  turn w id title content st st' r →
  requests (trace st') = requests (trace st) ++ [request title content].
Proof.
  intros Hturn. destruct (turn_trace w _ _ _ _ _ _ Hturn) as (evs & -> & Hevs).
  rewrite requests_app. f_equal. unfold requests.
  rewrite filter_cons_True by done. fold (requests evs).
  rewrite (requests_quiet evs); [done|].
  eapply Forall_impl; [exact Hevs|]. apply follows_request_quiet.
Qed.

(** The requests of the loop are those of the notes that had their turn,
    in order: all of them when the loop runs to its end. *)
Lemma for_each_requests notes st :
  ∃ m,
    requests (trace (for_each (process_note w) notes st).1)
    = requests (trace st) ++ ((λ n, request n.1.2 n.2) <$> take m notes) ∧
    ((for_each (process_note w) notes st).2 = Ok tt → take m notes = notes).
Proof.
  revert st. induction notes as [|n notes IH]; intros st.
  { exists 0%nat. cbn. by rewrite app_nil_r. }
  pose proof (turn_requests _ _ _ _ _ _ (process_note_turn' w n st)) as Hn.
  destruct (for_each_cons_cases w n notes st) as [[Hok ->]|(e & Hraise & ->)].
  - destruct (IH (process_note w n st).1) as (m & Hm & Hall).
    exists (S m). cbn [take fmap list_fmap]. split.
    + by rewrite Hm, Hn, <-app_assoc.
    + intros Hend. by rewrite (Hall Hend).
  - exists 1%nat. cbn [fst snd take]. split; [|done].
    by rewrite take_0.
Qed.

Lemma elem_of_requests ev tr : ev ∈ requests tr → ev ∈ tr.
Proof. unfold requests. intros Hin. by apply list_elem_of_filter in Hin as [_ ?]. Qed.

End request_facts.

(** ** Selection *)

(** C2: in a table whose identifiers are unique, a row is selected
    exactly when its embedding is NULL, and the Processor works on that
    selection: once the SELECT has returned, the rows of the cursor are
    the rows of the table with a NULL embedding, and in a run that ends
    normally each of them had its turn, which starts with its request.
    A row that has an embedding when the run starts is not among the rows
    of the cursor, no UPDATE of the run is addressed to it, and it is in
    its place and unchanged in the committed table and in the open
    transaction when the run ends, whichever way it ends, and also after
    any number of turns of the loop. *)
Theorem embedded_notes_untouched (w : world) :
  unique_ids (notes_table w) →
  (∀ r, r ∈ notes_table w →
        columns r ∈ select_unembedded (notes_table w) ↔ embedding r = None) ∧
  (EvFetchall ∈ trace (run w).1 →
   rows (run w).1 = select_unembedded (notes_table w)) ∧
  ((run w).2 = Ok tt →
   rows (run w).1 = select_unembedded (notes_table w) ∧
   ∀ r, r ∈ notes_table w → embedding r = None →
        request (title r) (content r) ∈ trace (run w).1) ∧
  ∀ p r, notes_table w !! p = Some r → embedding r ≠ None →
    (∀ c, c ∈ rows (run w).1 → c.1.1 ≠ note_id r) ∧
    (∀ v, EvUpdate v (note_id r) ∉ trace (run w).1) ∧
    committed (run w).1 !! p = Some r ∧
    pending (run w).1 !! p = Some r ∧
    ∀ key dsn k,
      let st_k := state_after w (select_unembedded (notes_table w))
                    (loop_start dsn (client_built w key)) k in
      committed st_k !! p = Some r ∧ pending st_k !! p = Some r.
Proof.
  intros Huniq. split; [intros r Hr; by apply select_iff_null|].
  assert (rows (run w).1 = [] ∧ (EvFetchall ∉ trace (run w).1) ∨
          rows (run w).1 = select_unembedded (notes_table w)) as Hrows.
  { destruct (run_end_inv w _ _ (run_ends w))
      as [->|[(key & j & Hj & ->)|(key & k & _ & _ & _ & _ & ->)]].
    - left. split; [done|]. apply not_elem_of_nil.
    - cbn [stopped_before rows trace].
      destruct (decide (4 ≤ j)%nat) as [?|Hlt]; [by right|]. left.
      split; [done|].
      assert (j = 1 ∨ j = 2 ∨ j = 3)%nat as [-> | [-> | ->]] by lia; cbn;
        rewrite !not_elem_of_cons; split_and!; try done; apply not_elem_of_nil.
    - right. cbn [stopped_after rows]. by rewrite for_each_rows. }
  split; [by destruct Hrows as [[_ ?]|?]|].
  split.
  { intros Hok. destruct (run_ok_inv w Hok) as (key & _ & Hloop & Hrun).
    rewrite Hrun. cbn [closed rows trace]. rewrite for_each_rows.
    split; [done|]. intros r Hr Hnull.
    apply elem_of_app. left. apply elem_of_requests.
    destruct (for_each_requests w (select_unembedded (notes_table w))
                (loop_start (environ w !! "DATABASE_URL")
                   (client_built w key))) as (m & -> & Hall).
    rewrite (Hall Hloop). apply elem_of_app. right.
    apply list_elem_of_fmap. exists (columns r). split; [done|].
    apply elem_of_select. by exists r. }
  intros p r Hp Hemb.
  assert (r ∈ notes_table w) as Hr by (apply list_elem_of_lookup; by exists p).
  assert (∀ n r', n ∈ select_unembedded (notes_table w) →
                  r' ∈ notes_table w → embedding r' ≠ None →
                  note_id r' ≠ n.1.1) as Havoid.
  { intros n r' Hn Hr' Hemb'. by eapply select_avoids_embedded. }
  set (ids := λ i : Z, ∃ n, n ∈ select_unembedded (notes_table w) ∧ n.1.1 = i).
  assert (¬ ids (note_id r)) as Hout.
  { intros (n & Hn & Hid). by eapply (Havoid n r). }
  assert (kept (λ r', embedding r' ≠ None) (notes_table w) (run w).1)
    as Hkept.
  { apply (run_invariant w (kept (λ r', embedding r' ≠ None) (notes_table w))).
    - by apply (kept_start _ (initial w)).
    - by intros key j p' r' Hp' _.
    - by intros key p' r' Hp' _.
    - intros [[id title] content] st Hn. eapply turn_kept.
      + apply process_note_turn.
      + intros r0 Hr0 Hemb0. by apply (Havoid (id, title, content) r0).
    - intros st k Hst p' r' Hp' Hemb'. by apply Hst. }
  assert (updates_within ids (run w).1) as Hupd.
  { apply (run_invariant w (updates_within ids)).
    - intros v i Hin. by apply elem_of_nil in Hin.
    - intros key j v i Hin. cbn in Hin.
      apply elem_of_cons in Hin as [?|Hin]; [done|].
      pose proof (prelude_quiet (environ w !! "DATABASE_URL") (notes_table w) j)
        as Hquiet.
      rewrite Forall_forall in Hquiet. by destruct (Hquiet _ Hin) as [_ ?].
    - intros key v i Hin. cbn in Hin. rewrite !elem_of_cons, elem_of_nil in Hin.
      repeat (destruct Hin as [Hin|Hin]; [done|]). done.
    - intros [[id title] content] st Hn. eapply turn_updates_within.
      + apply process_note_turn.
      + by exists (id, title, content).
    - intros st k Hst v i Hin. cbn in Hin.
      apply elem_of_app in Hin as [Hin|Hin]; [by eapply Hst|].
      pose proof (closing_quiet k) as Hquiet.
      rewrite Forall_forall in Hquiet. by destruct (Hquiet _ Hin) as [_ ?]. }
  split_and!.
  - intros c Hc Hid.
    destruct Hrows as [[Hnil _]|Hsel]; rewrite ?Hnil, ?Hsel in Hc.
    + by apply elem_of_nil in Hc.
    + apply Hout. by exists c.
  - intros v Hin. apply Hout. by eapply Hupd.
  - by apply Hkept.
  - by apply Hkept.
  - intros key dsn k. cbn zeta. unfold state_after.
    apply (for_each_kept w (λ r', embedding r' ≠ None) (notes_table w));
      [|by apply (loop_start_kept _ dsn (client_built w key))|done..].
    intros n r' Hn. apply Havoid. by apply (subseteq_take k).
Qed.

Lemma sample_unique_ids : unique_ids Sample.notes.
Proof. unfold unique_ids. apply (bool_decide_unpack _). by vm_compute. Qed.

Lemma embedded_notes_untouched_witness :
  unique_ids (notes_table Sample.w) ∧
  rows (run Sample.w).1 = [Sample.note1; Sample.note2] ∧
  committed (run Sample.w).1 !! 2%nat
    = Some (Note 3 (Some (lit "t")) None (Some Sample.v3) (Some 5)).
Proof.
  split; [exact sample_unique_ids|].
  destruct (embedded_notes_untouched Sample.w sample_unique_ids)
    as (_ & _ & Hok & Hkept).
  split.
  - by apply Hok.
  - destruct (Hkept 2%nat
                (Note 3 (Some (lit "t")) None (Some Sample.v3) (Some 5)))
      as (_ & _ & Hc & _); done.
Defined.

(** The key matters: the UPDATE is addressed by identifier, so an embedded
    row that shares its identifier with a selected one is overwritten. *)
Remark shared_id_overwritten :
  ¬ unique_ids (notes_table Sample.w_shared_id) ∧
  notes_table Sample.w_shared_id !! 1%nat
    = Some (Note 7 (Some (lit "old")) (Some (lit "y")) (Some []) (Some 5)) ∧
  committed (run Sample.w_shared_id).1 !! 1%nat
    = Some (Note 7 (Some (lit "old")) (Some (lit "y")) (Some Sample.v3)
              (Some 7)).
Proof.
  split_and!; [|by vm_compute..].
  unfold unique_ids. apply (bool_decide_eq_false_1 _). by vm_compute.
Qed.

(** ** The paired update *)

(** C4: take the loop from a state with no open transaction.  When the
    loop gets as far as turn [k] and the body of that turn returns for
    note [n], the turn made exactly these calls: the request, one UPDATE
    addressed to the identifier of [n], one commit, and the message.  The
    committed table after the turn is the one before it with [embedding]
    and [indexed_at] set in the rows of that identifier: such a row keeps
    its identifier, title and content, a row with another identifier is
    unchanged, and when the identifiers are unique every row at another
    position is unchanged.  After any number of turns, and also when the
    loop was left, each row of the committed table is as it was at the
    start or has had both columns set by one UPDATE. *)
Theorem paired_update (w : world) (st : state) (notes : list candidate) :
  pending st = committed st →
  (∀ k n,
     notes !! k = Some n →
     reached w notes st k →
     let st_k := state_after w notes st k in
     let st_k' := state_after w notes st (S k) in
     (try_body w n st_k).2 = Ok tt →
     ∃ v now,
       trace st_k' = trace st_k ++
         [request n.1.2 n.2; EvUpdate v n.1.1; EvCommit;
          EvPrint (MsgProcessed n.1.1 n.1.2)] ∧
       committed st_k' = update_embedding v now n.1.1 (committed st_k) ∧
       (∀ p r, committed st_k !! p = Some r → note_id r = n.1.1 →
          committed st_k' !! p
          = Some {| note_id := note_id r; title := title r;
                    content := content r; embedding := Some v;
                    indexed_at := Some now |}) ∧
       (∀ p r, committed st_k !! p = Some r → note_id r ≠ n.1.1 →
          committed st_k' !! p = Some r) ∧
       (unique_ids (committed st_k) →
        ∀ p p' r r', committed st_k !! p = Some r → note_id r = n.1.1 →
          p' ≠ p → committed st_k !! p' = Some r' →
          committed st_k' !! p' = Some r')) ∧
  (∀ k p r0, committed st !! p = Some r0 →
     ∃ r, committed (state_after w notes st k) !! p = Some r ∧
          untouched_or_paired r0 r).
Proof.
  intros Hset. split.
  - intros k n Hk Hreached st_k st_k' Hok. subst st_k st_k'.
    rewrite (state_after_S w notes st k n Hreached Hk).
    pose proof (state_after_settled w notes st k Hset Hreached) as Hset_k.
    destruct (try_body_returned w n _ Hok) as (_ & _ & v & now & Htr & Hc & _).
    rewrite Hset_k in Hc.
    exists v, now. split_and!; [done|done|..].
    + intros p r Hp Hid. rewrite Hc. by apply update_embedding_same.
    + intros p r Hp Hid. rewrite Hc. by apply update_embedding_other.
    + intros Huniq p p' r r' Hp Hid Hne Hp'. rewrite Hc.
      apply update_embedding_other; [done|]. intros Hid'.
      destruct (unique_ids_same_row _ p p' r r' Huniq Hp Hp') as [? _];
        congruence.
  - intros k p r0 Hp.
    assert (paired (committed st) (state_after w notes st k)) as Hpaired.
    { unfold state_after. by apply for_each_paired, paired_start. }
    destruct (Hpaired p r0 Hp) as (r & _ & Hc & _ & Hr & _). by exists r.
Qed.

Lemma paired_update_witness :
  pending Sample.start = committed Sample.start ∧
  reached Sample.w [Sample.note1; Sample.note2] Sample.start 1 ∧
  ∃ v now,
    committed (state_after Sample.w [Sample.note1; Sample.note2] Sample.start 2)
    = update_embedding v now 2
        (committed (state_after Sample.w [Sample.note1; Sample.note2]
                      Sample.start 1)).
Proof.
  split; [done|]. split; [by vm_compute|].
  destruct (proj1 (paired_update Sample.w Sample.start
                     [Sample.note1; Sample.note2] eq_refl)
              1%nat Sample.note2 eq_refl)
    as (v & now & _ & Hc & _); [by vm_compute..|].
  by exists v, now.
Defined.

(** ** Failure isolation *)

Section isolation_facts.

Context (w : world).

Implicit Types (st : state) (notes : list candidate) (t : table).

Lemma select_ids_NoDup t :
  unique_ids t → NoDup ((λ c : candidate, c.1.1) <$> select_unembedded t).
Proof.
  intros Huniq. unfold select_unembedded. rewrite <-list_fmap_compose.
  eapply sublist_NoDup; [exact Huniq|].
  apply (fmap_sublist note_id), sublist_filter.
Qed.

Lemma other_turns_other_ids notes i a :
  NoDup ((λ c : candidate, c.1.1) <$> notes) → notes !! i = Some a →
  (∀ n, n ∈ take i notes → n.1.1 ≠ a.1.1) ∧
  (∀ n, n ∈ drop (S i) notes → n.1.1 ≠ a.1.1).
Proof.
  intros Hnodup Hi.
  assert (∀ q n, notes !! q = Some n → n.1.1 = a.1.1 → q = i) as Hpos.
  { intros q n Hq Hid.
    apply (NoDup_lookup _ q i (a.1.1) Hnodup).
    - rewrite list_lookup_fmap. by rewrite Hq, <-Hid.
    - rewrite list_lookup_fmap. by rewrite Hi. }
  split; intros n Hn Hid.
  - apply elem_of_take in Hn as (q & Hq & Hlt).
    specialize (Hpos q n Hq Hid). lia.
  - apply list_elem_of_lookup in Hn as (q & Hq).
    rewrite lookup_drop in Hq.
    specialize (Hpos _ n Hq Hid). lia.
Qed.

(** The rows of a note whose persistence raised are, when the loop has
    run to its end, what they were when it started, if no other turn has
    that identifier. *)
Lemma failed_note_kept notes st i a e :
  NoDup ((λ c : candidate, c.1.1) <$> notes) → notes !! i = Some a →
  pending st = committed st →
  (for_each (process_note w) notes st).2 = Ok tt →
  (persist w a (state_after w notes st i)).2 = Raise e →
  kept (λ r, note_id r = a.1.1) (committed st)
    (for_each (process_note w) notes st).1.
Proof.
  intros Hnodup Hi Hset Hend Hraise.
  destruct (other_turns_other_ids notes i a Hnodup Hi) as [Hpre Hpost].
  pose proof (reached_of_end w notes st (S i) Hend) as Hreached'.
  destruct (reached_before w notes st i a Hreached' Hi) as [Hreached Hturn].
  rewrite (for_each_from w notes st (S i) Hreached').
  apply for_each_kept.
  { intros n r Hn _ ->. intros Heq. by eapply Hpost. }
  rewrite (state_after_S w notes st i a Hreached Hi).
  destruct (persist_raised w a _ e Hraise) as (_ & Hc & _ & Hhandled).
  destruct (Hhandled Hturn) as [_ Hp].
  assert (kept (λ r, note_id r = a.1.1) (committed st)
            (state_after w notes st i)) as Hkept.
  { unfold state_after. apply for_each_kept; [|by apply kept_start].
    intros n r Hn _ ->. intros Heq. by eapply Hpre. }
  intros p r Hpos Hid. rewrite Hp, Hc. split; by apply Hkept.
Qed.

(** The rows of a note whose persistence returned hold, when the loop
    has run to its end, the embedding and the time of that turn. *)
Lemma stored_note_kept notes st j b :
  NoDup ((λ c : candidate, c.1.1) <$> notes) → notes !! j = Some b →
  pending st = committed st →
  (for_each (process_note w) notes st).2 = Ok tt →
  (persist w b (state_after w notes st j)).2 = Ok tt →
  ∃ v now,
    (∃ rest,
       trace (state_after w notes st (S j))
       = trace (state_after w notes st j) ++
           [request b.1.2 b.2; EvUpdate v b.1.1; EvCommit;
            EvPrint (MsgProcessed b.1.1 b.1.2)] ++ rest) ∧
    ∀ p r, committed st !! p = Some r → note_id r = b.1.1 →
      committed (for_each (process_note w) notes st).1 !! p
      = Some (set_embedding v now r).
Proof.
  intros Hnodup Hj Hset Hend Hok.
  destruct (other_turns_other_ids notes j b Hnodup Hj) as [Hpre Hpost].
  pose proof (reached_of_end w notes st (S j) Hend) as Hreached'.
  destruct (reached_before w notes st j b Hreached' Hj) as [Hreached Hturn].
  pose proof (state_after_settled w notes st j Hset Hreached) as Hset_j.
  pose proof (state_after_settled w notes st (S j) Hset Hreached') as Hset_j'.
  destruct (persist_returned w b _ Hok) as (v & now & Htr & Hc).
  rewrite <-(state_after_S w notes st j b Hreached Hj) in Htr, Hc.
  rewrite Hset_j in Hc.
  exists v, now. split; [done|].
  intros p r Hpos Hid.
  assert (kept (λ r, note_id r = b.1.1) (committed st)
            (state_after w notes st j)) as Hkept.
  { unfold state_after. apply for_each_kept; [|by apply kept_start].
    intros n r' Hn _ ->. intros Heq. by eapply Hpre. }
  destruct (Hkept p r Hpos Hid) as [Hrow _].
  rewrite (for_each_from w notes st (S j) Hreached').
  eapply (for_each_kept w (λ r, note_id r = b.1.1)
            (committed (state_after w notes st (S j)))).
  - intros n r' Hn _ ->. intros Heq. by eapply Hpost.
  - by apply kept_start.
  - rewrite Hc. by apply update_embedding_same.
  - done.
Qed.

End isolation_facts.




(** * Further properties of the script *)

(** ** Normalisation and truncation *)

Lemma replace_app old new (s t : str) :
  replace old new (s ++ t) = replace old new s ++ replace old new t.
Proof. unfold replace. apply fmap_app. Qed.

Lemma replace_slice_to old new stop (s : str) :
  replace old new (slice_to stop s) = slice_to stop (replace old new s).
Proof.
  unfold slice_to. rewrite len_replace. unfold replace.
  case_decide; apply fmap_take.
Qed.

Lemma replace_idempotent old new (s : str) :
  old ≠ new → replace old new (replace old new s) = replace old new s.
Proof. intros Hne. apply replace_absent. by apply replace_removes. Qed.

(** X1: replacing the newlines and cutting to 8000 characters commute.
    What the provider receives is the first 8000 characters of the
    normalised title, two spaces (the blank line), and the normalised
    content; normalising it again changes nothing, and when no column
    holds a newline and everything fits, it is title, two spaces,
    content. *)
Theorem provider_input_normal_form (title content : option str) :
  provider_input title content
  = slice_to 8000
      (replace newline space (to_str title) ++ [space; space] ++
       replace newline space (to_str content)) ∧
  replace newline space (provider_input title content)
  = provider_input title content ∧
  ((newline ∉ to_str title) → (newline ∉ to_str content) →
   len (to_str title) + 2 + len (to_str content) ≤ 8000 →
   provider_input title content
   = to_str title ++ [space; space] ++ to_str content).
Proof.
  assert (provider_input title content
          = slice_to 8000
              (replace newline space (to_str title) ++ [space; space] ++
               replace newline space (to_str content))) as Hform.
  { unfold provider_input, truncated_text, full_text.
    rewrite replace_slice_to. by rewrite !replace_app. }
  split_and!.
  - exact Hform.
  - unfold provider_input. by apply replace_idempotent.
  - intros Ht Hc Hfit. rewrite Hform.
    rewrite !replace_absent by done. apply slice_to_fits.
    rewrite !len_app. change (len [space; space]) with 2. lia.
Qed.

Lemma provider_input_normal_form_witness :
  provider_input (Some (lit "A")) (Some (lit "x"))
  = lit "A" ++ [space; space] ++ lit "x".
Proof.
  apply (proj2 (proj2 (provider_input_normal_form (Some (lit "A"))
                         (Some (lit "x"))))).
  - apply (bool_decide_unpack _). by vm_compute.
  - apply (bool_decide_unpack _). by vm_compute.
  - by vm_compute.
Defined.

(** ** What a run keeps *)

Section run_invariants.

Context (w : world).

Lemma run_columns :
  columns <$> committed (run w).1 = columns <$> notes_table w.
Proof.
  assert (columns <$> committed (run w).1 = columns <$> notes_table w ∧
          columns <$> pending (run w).1 = columns <$> notes_table w)
    as [Hcols _]; [|done].
  apply (run_invariant_tables w
           (λ c p, columns <$> c = columns <$> notes_table w ∧
                   columns <$> p = columns <$> notes_table w)); [done|].
  intros n st _. eapply turn_columns. apply process_note_turn'.
Qed.

Lemma run_length : length (committed (run w).1) = length (notes_table w).
Proof.
  rewrite <-(length_fmap columns (committed (run w).1)).
  by rewrite run_columns, length_fmap.
Qed.

Lemma run_paired : paired (notes_table w) (run w).1.
Proof.
  apply (run_invariant w (paired (notes_table w))).
  - by apply (paired_start (initial w)).
  - intros key j. by apply (paired_start (stopped_before w key j)).
  - intros key. by apply (paired_start (initial w)).
  - intros n st _. eapply turn_paired. apply process_note_turn'.
  - by intros st k Hst.
Qed.

End run_invariants.

(** X2: a turn of the loop that returns, whether the note was stored or
    its error handled, leaves no uncommitted change; so a script that
    ends normally closes its connection with nothing uncommitted. *)
Theorem run_leaves_nothing_pending (w : world) :
  (∀ n st, (process_note w n st).2 = Ok tt →
           pending (process_note w n st).1 = committed (process_note w n st).1) ∧
  ((run w).2 = Ok tt → pending (run w).1 = committed (run w).1).
Proof.
  split.
  - intros n st Hok. eapply turn_settled. rewrite <-Hok.
    apply process_note_turn'.
  - intros Hok. destruct (run_ok_inv w Hok) as (key & _ & Hloop & ->).
    cbn [closed pending committed]. by apply for_each_settled.
Qed.

Lemma run_leaves_nothing_pending_witness :
  pending (run Cases.w_unprintable).1 = committed (run Cases.w_unprintable).1.
Proof.
  apply (proj2 (run_leaves_nothing_pending Cases.w_unprintable)).
  by vm_compute.
Defined.

(** X3: a run neither inserts nor deletes nor reorders rows, and changes
    no identifier, title or content: the table it leaves has the rows of
    the table it found, column by column, in their places. *)
Theorem run_preserves_rows (w : world) :
  columns <$> committed (run w).1 = columns <$> notes_table w ∧
  length (committed (run w).1) = length (notes_table w) ∧
  ∀ p r0, notes_table w !! p = Some r0 →
    ∃ r, committed (run w).1 !! p = Some r ∧ note_id r = note_id r0 ∧
         title r = title r0 ∧ content r = content r0.
Proof.
  pose proof (run_columns w) as Hcols.
  split_and!.
  - exact Hcols.
  - apply run_length.
  - intros p r0 Hp.
    assert ((columns <$> committed (run w).1) !! p = Some (columns r0)) as Hr.
    { rewrite Hcols, list_lookup_fmap. by rewrite Hp. }
    rewrite list_lookup_fmap in Hr.
    destruct (committed (run w).1 !! p) as [r|]; [|done].
    exists r. cbn in Hr. unfold columns in Hr. by simplify_eq.
Qed.

Lemma run_preserves_rows_witness :
  ∃ r, committed (run Sample.w).1 !! 1%nat = Some r ∧ note_id r = 2 ∧
       title r = None ∧ content r = Some (lit "b").
Proof.
  apply (proj2 (proj2 (run_preserves_rows Sample.w)) 1%nat
           (Note 2 None (Some (lit "b")) None None)).
  reflexivity.
Defined.

(** X4: a run never takes an embedding or an indexing time away.  Each
    row of the table it leaves is the row it found or that row with both
    columns set; so a row that had an embedding has one, and a row that
    had an indexing time has one.  The identifiers need not be unique. *)
Theorem run_never_clears (w : world) (p : nat) (r0 : note) :
  notes_table w !! p = Some r0 →
  ∃ r, committed (run w).1 !! p = Some r ∧
       untouched_or_paired r0 r ∧
       (is_Some (embedding r0) → is_Some (embedding r)) ∧
       (is_Some (indexed_at r0) → is_Some (indexed_at r)).
Proof.
  intros Hp.
  destruct (run_paired w p r0 Hp) as (r & _ & Hc & _ & Hr & _).
  exists r. split_and!; [done|done|..];
    destruct Hr as [->|(v & now & ->)]; by eauto.
Qed.

Lemma run_never_clears_witness :
  ∃ r, committed (run Sample.w_shared_id).1 !! 1%nat = Some r ∧
       is_Some (embedding r).
Proof.
  destruct (run_never_clears Sample.w_shared_id 1%nat
              (Note 7 (Some (lit "old")) (Some (lit "y")) (Some []) (Some 5))
              eq_refl) as (r & Hr & _ & Hemb & _).
  exists r. split; [exact Hr|]. apply Hemb. by eexists.
Defined.

(** ** What a run writes *)

Section write_facts.

Context (w : world).

Lemma turn_update_from_provider (t : table) id title content st st' r :
  turn w id title content st st' r →
  (id, title, content) ∈ select_unembedded t →
  Forall (update_from_provider w t) (trace st) →
  Forall (update_from_provider w t) (trace st').
Proof.
  intros Hturn Hsel Hst.
  destruct (turn_trace w _ _ _ _ _ _ Hturn) as (evs & -> & Hevs).
  apply Forall_app. split; [done|]. constructor; [done|].
  eapply Forall_impl; [exact Hevs|].
  intros [] Hev; try done. destruct Hev as [-> Hreq]. cbn. by eauto.
Qed.

Lemma turn_down id title content st st' r :
  provider_down w → turn w id title content st st' r →
  committed st' = committed st ∧
  ∃ evs, trace st' = trace st ++ evs ∧
         Forall (λ ev, write_call ev = false) evs.
Proof.
  intros Hdown Hturn.
  destruct (Hdown (trace st) [provider_input title content] default_model)
    as [e0 He0].
  destruct Hturn as [Htried _|st1 e Htried Hhandled].
  - inversion Htried; congruence.
  - inversion Htried as [e1 Hr (Htr1 & Hc1 & _)| | | |]; try congruence.
    destruct Hhandled as [e' ? (-> & -> & _)|e' ? ? (-> & -> & _)
                         |? ? (-> & -> & _)];
      (split; [done|]); rewrite Htr1, <-app_assoc;
      eexists; (split; [done|]); by repeat constructor.
Qed.

End write_facts.

(** X7: the script writes nothing of its own.  Every UPDATE of a run is
    addressed to the identifier of a selected note and carries a vector
    that the provider returned for the request built from that note. *)
Theorem updates_come_from_provider (w : world) :
  Forall (update_from_provider w (notes_table w)) (trace (run w).1).
Proof.
  apply (run_invariant w
           (λ st, Forall (update_from_provider w (notes_table w)) (trace st))).
  - constructor.
  - intros key j. cbn. constructor; [done|].
    eapply Forall_impl; [apply prelude_quiet|].
    intros [] [_ Hev]; done.
  - intros key. cbn. by repeat constructor.
  - intros [[id title] content] st Hn.
    eapply turn_update_from_provider; [apply process_note_turn|done].
  - intros st k Hst. cbn. apply Forall_app. split; [done|].
    eapply Forall_impl; [apply closing_quiet|].
    intros [] [_ Hev]; done.
Qed.

(** X10: when the provider refuses every request, a run writes nothing:
    there is no UPDATE and no commit in its trace and the committed table
    is the one it found, however many notes were selected. *)
Theorem provider_outage_writes_nothing (w : world) :
  provider_down w →
  committed (run w).1 = notes_table w ∧
  Forall (λ ev, write_call ev = false) (trace (run w).1).
Proof.
  intros Hdown.
  apply (run_invariant w
           (λ st, committed st = notes_table w ∧
                  Forall (λ ev, write_call ev = false) (trace st))).
  - by split; [|constructor].
  - intros key j. split; [done|]. cbn. constructor; [done|].
    eapply Forall_impl; [apply prelude_quiet|]. by intros ev [_ ?].
  - intros key. split; [done|]. cbn. by repeat constructor.
  - intros n st _ [Hc Htr].
    destruct (turn_down w _ _ _ _ _ _ Hdown (process_note_turn' w n st))
      as (Hc' & evs & Htr' & Hevs).
    rewrite Hc', Htr'. split; [done|]. by apply Forall_app.
  - intros st k [Hc Htr]. split; [done|]. cbn. apply Forall_app.
    split; [done|]. eapply Forall_impl; [apply closing_quiet|].
    by intros ev [_ ?].
Qed.

Lemma sample_provider_down : provider_down Cases.w_down.
Proof. intros tr input model. by exists Sample.boom. Qed.

Lemma provider_outage_writes_nothing_witness :
  committed (run Cases.w_down).1 = Sample.notes.
Proof.
  apply (provider_outage_writes_nothing Cases.w_down sample_provider_down).
Defined.

(** ** What a run asks and says *)

Section report_facts.

Context (w : world).

Implicit Types (st : state) (notes : list candidate) (n : candidate).

Lemma printed_app tr1 tr2 : printed (tr1 ++ tr2) = printed tr1 ++ printed tr2.
Proof. unfold printed. apply omap_app. Qed.

Lemma turn_printed id title content st st' :
  turn w id title content st st' (Ok tt) →
  ∃ ms, printed (trace st') = printed (trace st) ++ ms ∧
        reports (id, title, content) ms.
Proof.
  unfold reports. cbn [fst snd].
  intros [Htried _|st1 e Htried Hhandled].
  - inversion Htried as [| | | |v ? ? ? ? (-> & _)].
    rewrite printed_app. eexists. split; [done|]. by left.
  - inversion Hhandled as [| |? ? (-> & _)].
    inversion Htried as [e0 ? (-> & _)|v e0 ? ? (-> & _)
                        |v e0 ? ? ? (-> & _)|v e0 ? ? ? ? (-> & _)|];
      subst; rewrite !printed_app, <-app_assoc;
      eexists; (split; [done|]); cbn; eauto.
Qed.

Lemma for_each_printed notes st :
  (for_each (process_note w) notes st).2 = Ok tt →
  ∃ groups,
    printed (trace (for_each (process_note w) notes st).1)
    = printed (trace st) ++ concat groups ∧
    Forall2 reports notes groups.
Proof.
  revert st. induction notes as [|n notes IH]; intros st Hend.
  { exists []. cbn. by rewrite app_nil_r. }
  destruct (for_each_cons_cases w n notes st) as [[Hok Heq]|(e & _ & Heq)];
    rewrite Heq in Hend |- *; [|done].
  pose proof (process_note_turn' w n st) as Hturn. rewrite Hok in Hturn.
  destruct n as [[id title] content].
  destruct (turn_printed _ _ _ _ _ Hturn) as (ms & Hms & Hrep).
  destruct (IH _ Hend) as (groups & Hgroups & Hall).
  exists (ms :: groups). split.
  - by rewrite Hgroups, Hms, <-app_assoc.
  - by constructor.
Qed.

End report_facts.

(** X5: the script calls [client.embeddings.create] at most once for a
    selected note, in the order of the selection, with the default
    model, and for no other text: the calls of a run are those of the
    first notes of the selection, and of the whole selection when the run
    ends normally.  (What the client does below that call, such as
    sending a request again, is not the script's.) *)
Theorem one_request_per_note (w : world) :
  requests (trace (run w).1)
    `prefix_of`
    (λ n, EvEmbeddingsCreate [provider_input n.1.2 n.2]
            "text-embedding-3-small")
      <$> select_unembedded (notes_table w) ∧
  ((run w).2 = Ok tt →
   requests (trace (run w).1)
   = (λ n, EvEmbeddingsCreate [provider_input n.1.2 n.2]
             "text-embedding-3-small")
       <$> select_unembedded (notes_table w)).
Proof.
  assert (∀ key k,
            ∃ m, requests
                   (trace (stopped_after
                      (for_each (process_note w)
                         (select_unembedded (notes_table w))
                         (loop_start (environ w !! "DATABASE_URL")
                            (client_built w key))).1 k))
                 = (λ n, request n.1.2 n.2)
                     <$> take m (select_unembedded (notes_table w)) ∧
                 ((for_each (process_note w)
                     (select_unembedded (notes_table w))
                     (loop_start (environ w !! "DATABASE_URL")
                        (client_built w key))).2 = Ok tt →
                  take m (select_unembedded (notes_table w))
                  = select_unembedded (notes_table w))) as Hloop.
  { intros key k.
    destruct (for_each_requests w (select_unembedded (notes_table w))
                (loop_start (environ w !! "DATABASE_URL")
                   (client_built w key))) as (m & Hm & Hall).
    exists m. split; [|done]. cbn [stopped_after trace].
    rewrite requests_app, Hm.
    rewrite (requests_quiet (take k closing_calls)).
    - rewrite app_nil_r. cbn [loop_start trace client_built log initial].
      rewrite (requests_quiet (_ ++ _)); [done|]. by repeat constructor.
    - eapply Forall_impl; [apply closing_quiet|]. by intros ev [? _]. }
  split.
  - destruct (run_end_inv w _ _ (run_ends w))
      as [->|[(key & j & _ & ->)|(key & k & _ & _ & _ & _ & ->)]].
    + apply prefix_nil.
    + cbn [stopped_before trace].
      rewrite (requests_quiet (_ :: _)); [apply prefix_nil|].
      constructor; [done|].
      eapply Forall_impl; [apply prelude_quiet|]. by intros ev [? _].
    + destruct (Hloop key k) as (m & -> & _).
      rewrite fmap_take. apply prefix_take.
  - intros Hok. destruct (run_ok_inv w Hok) as (key & _ & Hend & ->).
    rewrite <-stopped_after_closed.
    destruct (Hloop key 3%nat) as (m & -> & Hall). by rewrite (Hall Hend).
Qed.

Lemma one_request_per_note_witness :
  requests (trace (run Sample.w).1)
  = [ EvEmbeddingsCreate [lit "A" ++ [32; 32]%N ++ [120; 32; 121]%N]
        "text-embedding-3-small";
      EvEmbeddingsCreate [lit "None" ++ [32; 32]%N ++ lit "b"]
        "text-embedding-3-small" ].
Proof.
  rewrite (proj2 (one_request_per_note Sample.w)); by vm_compute.
Defined.

(** X6: in a run that ends normally the [print] calls are: the count of
    the selected notes; then, for each selected note in the order of the
    selection, the message that it was processed, or the message of its
    error, or the first, which raised, followed by the second; then the
    closing message.  Each message names its note by its identifier. *)
Theorem one_report_per_note (w : world) :
  (run w).2 = Ok tt →
  ∃ groups,
    printed (trace (run w).1)
    = MsgFound (length (select_unembedded (notes_table w))) ::
        concat groups ++ [MsgFinished] ∧
    Forall2 reports (select_unembedded (notes_table w)) groups ∧
    length groups = length (select_unembedded (notes_table w)).
Proof.
  intros Hok. destruct (run_ok_inv w Hok) as (key & _ & Hend & ->).
  destruct (for_each_printed w _ _ Hend) as (groups & Hgroups & Hall).
  exists groups. split_and!.
  - cbn [closed trace]. rewrite printed_app, Hgroups. done.
  - done.
  - symmetry. by eapply Forall2_length.
Qed.

Lemma one_report_per_note_witness :
  ∃ groups,
    printed (trace (run Cases.w_unprintable).1)
    = MsgFound 2 :: concat groups ++ [MsgFinished] ∧
    length groups = 2%nat.
Proof.
  destruct (one_report_per_note Cases.w_unprintable)
    as (groups & Hgroups & _ & Hlen); [by vm_compute|].
  by exists groups.
Defined.

(** ** Runs at the extremes *)

Section extremes.

Context (w : world).

Implicit Types (st : state) (n : candidate) (t : table).

Lemma select_nil t :
  Forall (λ r, embedding r ≠ None) t → select_unembedded t = [].
Proof.
  intros Hall. unfold select_unembedded.
  induction Hall as [|r t Hr _ IH]; [done|].
  by rewrite filter_cons_False.
Qed.

Lemma select_nil_inv t :
  select_unembedded t = [] → Forall (λ r, embedding r ≠ None) t.
Proof.
  intros Hnil. apply Forall_forall. intros r Hr Hnull.
  assert (columns r ∈ select_unembedded t) as Hin.
  { apply elem_of_select. by exists r. }
  rewrite Hnil in Hin. by apply elem_of_nil in Hin.
Qed.

Lemma idle_run key dsn :
  connected w key dsn → outside_calls_return w →
  select_unembedded (notes_table w) = [] →
  run w
  = ({| trace := idle_trace key dsn; committed := notes_table w;
        pending := notes_table w; rows := [] |}, Ok tt).
Proof.
  intros Hcon Hout Hnil. rewrite (run_connected w key dsn Hcon Hout).
  unfold loop_start, client_built, initial, log.
  cbn [trace committed pending rows]. rewrite Hnil. done.
Qed.

(** With nothing selected, a run calls neither the provider nor an
    UPDATE or a commit, wherever it stops. *)
Lemma idle_run_quiet :
  select_unembedded (notes_table w) = [] →
  committed (run w).1 = notes_table w ∧
  Forall (λ ev, provider_call ev = false ∧ write_call ev = false)
    (trace (run w).1).
Proof.
  intros Hnil.
  apply (run_invariant w
           (λ st, committed st = notes_table w ∧
                  Forall (λ ev, provider_call ev = false ∧
                                write_call ev = false) (trace st))).
  - by split; [|constructor].
  - intros key j. split; [done|]. cbn. constructor; [done|].
    apply prelude_quiet.
  - intros key. split; [done|]. cbn. by repeat constructor.
  - intros n st Hn. rewrite Hnil in Hn. by apply elem_of_nil in Hn.
  - intros st k [Hc Htr]. split; [done|]. cbn. apply Forall_app.
    split; [done|]. apply closing_quiet.
Qed.

Lemma persist_up n st : services_up w → (persist w n st).2 = Ok tt.
Proof.
  intros (Hreq & Hupd & Hcom). destruct n as [[id title] content].
  pose proof (persist_cases w id title content st) as Hcases.
  destruct (persist w (id, title, content) st).2 as [[]|e] eqn:Hres; [done|].
  exfalso. revert Hres.
  unfold persist, get_embedding, embeddings_create_call, mbind, M_bind, bind.
  destruct (Hreq (trace st) [replace newline space (truncated_text title content)]
              default_model) as [v ->].
  unfold execute_update. rewrite Hupd. unfold commit. by rewrite Hcom.
Qed.

(** With every service up and a handler that returns, the rows of the
    notes that had their turn, and the rows that had an embedding before,
    have one after the loop. *)
Lemma for_each_all_stored notes st p r :
  services_up w → outside_calls_return w → pending st = committed st →
  committed st !! p = Some r →
  ∃ r', committed (for_each (process_note w) notes st).1 !! p = Some r' ∧
        note_id r' = note_id r ∧
        (is_Some (embedding r) ∨ note_id r ∈ (λ n : candidate, n.1.1) <$> notes →
         is_Some (embedding r')) ∧
        (is_Some (indexed_at r) ∨ note_id r ∈ (λ n : candidate, n.1.1) <$> notes →
         is_Some (indexed_at r')).
Proof.
  intros Hup Hout. revert st r.
  induction notes as [|n notes IH]; intros st r Hset Hp.
  { exists r. split_and!; [done|done|..]; intros [?|Hin]; try done;
      by apply elem_of_nil in Hin. }
  pose proof (process_note_ok w n st Hout) as Hok.
  rewrite (for_each_cons_ok w n notes st Hok).
  destruct (persist_returned w n st (persist_up n st Hup))
    as (v & now & _ & Hc).
  assert (pending (process_note w n st).1 = committed (process_note w n st).1)
    as Hset'.
  { eapply turn_settled. rewrite <-Hok. apply process_note_turn'. }
  rewrite Hset in Hc.
  destruct (decide (note_id r = n.1.1)) as [Heq|Hne].
  - pose proof (update_embedding_same v now _ _ p r Hp Heq) as Hp'.
    rewrite <-Hc in Hp'.
    destruct (IH _ _ Hset' Hp') as (r' & Hr' & Hid & Hemb & Hidx).
    exists r'. split_and!; [done|done|..]; intros _.
    + apply Hemb. left. by eexists.
    + apply Hidx. left. by eexists.
  - pose proof (update_embedding_other v now _ _ p r Hp Hne) as Hp'.
    rewrite <-Hc in Hp'.
    destruct (IH _ _ Hset' Hp') as (r' & Hr' & Hid & Hemb & Hidx).
    exists r'. split_and!; [done|done|..].
    + intros [?|Hin]; apply Hemb; [by left|right].
      cbn in Hin. apply elem_of_cons in Hin as [?|?]; done.
    + intros [?|Hin]; apply Hidx; [by left|right].
      cbn in Hin. apply elem_of_cons in Hin as [?|?]; done.
Qed.

Lemma run_all_stored key dsn p r0 :
  connected w key dsn → outside_calls_return w → services_up w →
  notes_table w !! p = Some r0 →
  ∃ r, committed (run w).1 !! p = Some r ∧ is_Some (embedding r) ∧
       (embedding r0 = None → is_Some (indexed_at r)).
Proof.
  intros Hcon Hout Hup Hp. rewrite (run_connected w key dsn Hcon Hout).
  cbn [fst closed committed].
  destruct (for_each_all_stored (select_unembedded (notes_table w))
              (loop_start dsn (client_built w key)) p r0 Hup Hout eq_refl Hp)
    as (r & Hr & _ & Hemb & Hidx).
  assert (embedding r0 = None →
          note_id r0 ∈ (λ n : candidate, n.1.1)
                         <$> select_unembedded (notes_table w)) as Hsel.
  { intros Hnull. apply list_elem_of_fmap. exists (columns r0).
    split; [done|]. apply elem_of_select. exists r0.
    split; [|done]. apply list_elem_of_lookup. by exists p. }
  exists r. split_and!; [done|..].
  - apply Hemb. destruct (embedding r0) eqn:Hemb0; [left; by eexists|].
    right. by apply Hsel.
  - intros Hnull. apply Hidx. right. by apply Hsel.
Qed.

Lemma run_leaves_no_candidate key dsn :
  connected w key dsn → outside_calls_return w → services_up w →
  select_unembedded (committed (run w).1) = [].
Proof.
  intros Hcon Hout Hup. apply select_nil, Forall_forall. intros r Hr.
  apply list_elem_of_lookup in Hr as [p Hp].
  assert (p < length (notes_table w))%nat as Hlt.
  { rewrite <-run_length. by eapply lookup_lt_Some. }
  apply lookup_lt_is_Some in Hlt as [r0 Hp0].
  destruct (run_all_stored key dsn p r0 Hcon Hout Hup Hp0)
    as (r' & Hr' & Hemb & _).
  rewrite Hp in Hr'. simplify_eq. by destruct Hemb as [v ->].
Qed.

End extremes.

(** X8: when every note has an embedding, a run calls neither the
    provider nor an UPDATE or a commit and leaves the table as it found
    it, wherever it stops.  When moreover the connection opens and no
    call outside the [try] body raises, it connects, selects, prints a
    count of 0, closes, prints the closing message and ends normally. *)
Theorem nothing_to_process (w : world) :
  Forall (λ r, embedding r ≠ None) (notes_table w) →
  committed (run w).1 = notes_table w ∧
  requests (trace (run w).1) = [] ∧
  Forall (λ ev, write_call ev = false) (trace (run w).1) ∧
  ∀ key dsn,
    connected w key dsn → outside_calls_return w →
    trace (run w).1 = idle_trace key dsn ∧
    committed (run w).1 = notes_table w ∧
    (run w).2 = Ok tt.
Proof.
  intros Hall. pose proof (select_nil _ Hall) as Hnil.
  destruct (idle_run_quiet w Hnil) as [Hc Hquiet].
  split_and!.
  - done.
  - apply requests_quiet. eapply Forall_impl; [exact Hquiet|].
    by intros ev [? _].
  - eapply Forall_impl; [exact Hquiet|]. by intros ev [_ ?].
  - intros key dsn Hcon Hout. by rewrite (idle_run w key dsn Hcon Hout Hnil).
Qed.

Lemma nothing_to_process_witness :
  trace (run Cases.w_done).1 = idle_trace Cases.key Cases.dsn.
Proof.
  apply (nothing_to_process Cases.w_done).
  - by repeat constructor.
  - split_and!; by vm_compute.
  - by intros tr ev _.
Defined.

(** X9: when the connection opens, no request, UPDATE or commit raises
    and no call outside the [try] body raises, a run leaves no note
    without an embedding: every row has one, every row that had none also
    has an indexing time, and the selection on the table it leaves is
    empty.  The message that a note was processed may raise: the note is
    committed all the same. *)
Theorem run_embeds_every_note (w : world) (key : string) (dsn : option string) :
  connected w key dsn → outside_calls_return w → services_up w →
  (∀ p r0, notes_table w !! p = Some r0 →
     ∃ r, committed (run w).1 !! p = Some r ∧ is_Some (embedding r) ∧
          (embedding r0 = None → is_Some (indexed_at r))) ∧
  Forall (λ r, embedding r ≠ None) (committed (run w).1) ∧
  select_unembedded (committed (run w).1) = [].
Proof.
  intros Hcon Hout Hup. split_and!.
  - intros p r0. by apply (run_all_stored w key dsn).
  - by apply select_nil_inv, (run_leaves_no_candidate w key dsn).
  - by apply (run_leaves_no_candidate w key dsn).
Qed.

Lemma unprintable_services_up : services_up Cases.w_unprintable.
Proof. split_and!; intros; cbn; by eauto. Qed.

Lemma run_embeds_every_note_witness :
  select_unembedded (committed (run Cases.w_unprintable).1) = [].
Proof.
  apply (run_embeds_every_note Cases.w_unprintable Cases.key Cases.dsn
           unprintable_connected unprintable_outside_calls_return
           unprintable_services_up).
Defined.

(** X11: running the script again after a run in which nothing outside
    the [try] body and no request, UPDATE or commit raised finds nothing
    to do.  On the table the first run left, the second connects, selects
    no note, sends no request, writes nothing and leaves the table as it
    is. *)
Theorem second_run_idle (w : world) (key : string) (dsn : option string) :
  connected w key dsn → outside_calls_return w → services_up w →
  let w' := with_table w (committed (run w).1) in
  trace (run w').1 = idle_trace key dsn ∧
  committed (run w').1 = committed (run w).1 ∧
  (run w').2 = Ok tt.
Proof.
  intros Hcon Hout Hup w'.
  assert (connected w' key dsn) as Hcon' by exact Hcon.
  assert (outside_calls_return w') as Hout' by exact Hout.
  assert (select_unembedded (notes_table w') = []) as Hnil.
  { by apply (run_leaves_no_candidate w key dsn). }
  by rewrite (idle_run w' key dsn Hcon' Hout' Hnil).
Qed.

Lemma second_run_idle_witness :
  trace (run (with_table Cases.w_unprintable
                (committed (run Cases.w_unprintable).1))).1
  = idle_trace Cases.key Cases.dsn.
Proof.
  apply (second_run_idle Cases.w_unprintable Cases.key Cases.dsn
           unprintable_connected unprintable_outside_calls_return
           unprintable_services_up).
Defined.




(** ** What is left for the next run *)

Section leftovers.

Context (w : world).

Implicit Types (st : state) (n : candidate).

(** A row without an embedding after the loop is a row of the start, in
    its place and unchanged. *)
Lemma unembedded_row_untouched notes st p r :
  pending st = committed st →
  committed (for_each (process_note w) notes st).1 !! p = Some r →
  embedding r = None →
  committed st !! p = Some r.
Proof.
  intros Hset Hp Hnull.
  assert (p < length (committed st))%nat as Hlt.
  { rewrite <-(length_fmap columns), <-(for_each_columns w notes st Hset).
    rewrite length_fmap. by eapply lookup_lt_Some. }
  apply lookup_lt_is_Some in Hlt as [r0 Hp0].
  destruct (for_each_paired w (committed st) notes st (paired_start st Hset)
              p r0 Hp0) as (r' & _ & Hr' & _ & Hpair & _).
  rewrite Hp in Hr'. simplify_eq.
  destruct Hpair as [->|(v & now & ->)]; done.
Qed.

End leftovers.

(** X13: take the loop over the notes selected from a table with unique
    identifiers, from a state with no open transaction, and suppose that
    it runs to its end.  The notes that a selection on the table it
    leaves would return are exactly the notes whose embedding computation
    or persistence raised (the request, the UPDATE or the commit).  A
    note whose persistence returned is not selected again, even when the
    message that it was processed raised and the note was reported as an
    error; and no note is selected that was not selected before. *)
Theorem failed_notes_remain (w : world) (st : state) :
  unique_ids (committed st) → pending st = committed st →
  let notes := select_unembedded (committed st) in
  let final := for_each (process_note w) notes st in
  final.2 = Ok tt →
  (∀ k n, notes !! k = Some n →
     n ∈ select_unembedded (committed final.1) ↔
     ∃ e, (persist w n (state_after w notes st k)).2 = Raise e) ∧
  (∀ c, c ∈ select_unembedded (committed final.1) → c ∈ notes).
Proof.
  intros Huniq Hset notes final Hend.
  pose proof (select_ids_NoDup (committed st) Huniq) as Hnodup.
  fold notes in Hnodup.
  assert (∀ c, c ∈ select_unembedded (committed final.1) →
               ∃ p r, committed st !! p = Some r ∧
                      committed final.1 !! p = Some r ∧
                      embedding r = None ∧ columns r = c) as Hleft.
  { intros c Hc. apply elem_of_select in Hc as (r & Hr & Hnull & Hcol).
    apply list_elem_of_lookup in Hr as [p Hp]. exists p, r.
    split_and!; [|done..].
    by apply (unembedded_row_untouched w notes st p r). }
  split.
  - intros k n Hk. split.
    + intros Hn. destruct (Hleft n Hn) as (p & r & Hp0 & Hp & Hnull & Hcol).
      destruct (persist w n (state_after w notes st k)).2 as [[]|e] eqn:Hres;
        [|by exists e].
      destruct (stored_note_kept w notes st k n Hnodup Hk Hset Hend Hres)
        as (v & now & _ & Hstored).
      assert (note_id r = n.1.1) as Hid by by rewrite <-Hcol.
      specialize (Hstored p r Hp0 Hid). unfold final in Hp.
      rewrite Hp in Hstored. injection Hstored as Hstored.
      by rewrite Hstored in Hnull.
    + intros [e Hraise].
      assert (n ∈ notes) as Hn by (apply list_elem_of_lookup; by exists k).
      apply elem_of_select in Hn as (r & Hr & Hnull & Hcol).
      apply list_elem_of_lookup in Hr as [p Hp].
      apply elem_of_select. exists r. split_and!; [|done..].
      apply list_elem_of_lookup. exists p.
      apply (failed_note_kept w notes st k n e Hnodup Hk Hset Hend Hraise);
        [done|]. by rewrite <-Hcol.
  - intros c Hc. destruct (Hleft c Hc) as (p & r & Hp0 & _ & Hnull & Hcol).
    apply elem_of_select. exists r. split_and!; [|done..].
    apply list_elem_of_lookup. by exists p.
Qed.

Lemma failed_notes_remain_witness :
  (Sample.note1
     ∈ select_unembedded
         (committed (for_each (process_note Sample.w)
                       (select_unembedded (committed Sample.start))
                       Sample.start).1)) ∧
  (Sample.note1
     ∉ select_unembedded
         (committed (for_each (process_note Cases.w_unprintable)
                       (select_unembedded (committed Cases.start_unprintable))
                       Cases.start_unprintable).1)).
Proof.
  split.
  - apply (proj1 (failed_notes_remain Sample.w Sample.start sample_unique_ids
                    eq_refl eq_refl) 0%nat Sample.note1 eq_refl).
    exists Sample.boom. by vm_compute.
  - intros Hin.
    apply (proj1 (failed_notes_remain Cases.w_unprintable
                    Cases.start_unprintable sample_unique_ids eq_refl eq_refl)
             0%nat Sample.note1 eq_refl) in Hin as [e He].
    vm_compute in He. discriminate He.
Defined.
